(** * decorator/decorator.py: decorators that decorate decorators

  A shallow embedding of the module [decorator.decorator] (the functions
  [decorated], [pipe], [compose], [optional] and [optional2]) together with
  the part of Python it runs on: function objects, [functools.partial]
  objects, [functools.update_wrapper], calls with positional and keyword
  arguments, exceptions and side effects of client code.

  Python is untyped and higher order: a callable may receive itself as an
  argument.  Callables are therefore data ([VFunction], [VPartial]) and a
  call is interpreted by [call], which is indexed by a call-depth budget.
  The big-step relations [calls] and [evaluates] quantify that budget away. *)

From Stdlib Require Import List String ZArith Bool Arith Lia.
Import ListNotations.
Open Scope string_scope.
Open Scope list_scope.

Set Warnings "-register-all,-notation-for-abbreviation".

(** ** Dictionaries

  A Python [dict] keeps insertion order; assigning to an existing key keeps
  the key's position. *)

Definition dict (V : Type) : Type := list (string * V).

Section Dict.
Context {V : Type}.

Fixpoint dict_get (d : dict V) (k : string) : option V :=
  match d with
  | [] => None
  | (k', v) :: d' => if String.eqb k k' then Some v else dict_get d' k
  end.

Fixpoint dict_set (d : dict V) (k : string) (v : V) : dict V :=
  match d with
  | [] => [(k, v)]
  | (k', v') :: d' =>
      if String.eqb k k' then (k', v) :: d' else (k', v') :: dict_set d' k v
  end.

(** [d.update(other)], also [{**d, **other}]. *)
Definition dict_update (d other : dict V) : dict V :=
  fold_left (fun acc kv => dict_set acc (fst kv) (snd kv)) other d.

Definition has_key (d : dict V) (k : string) : bool :=
  existsb (fun kv => String.eqb k (fst kv)) d.

(** A list of items is a dictionary when no key occurs twice. *)
Fixpoint dict_wf (d : dict V) : bool :=
  match d with
  | [] => true
  | (k, _) :: d' => negb (has_key d' k) && dict_wf d'
  end.
End Dict.

(** ** Values *)

Section Decorator.

(** Code objects of the client's functions (wrapper definitions, factories,
    targets). *)
Variable U : Type.

(** Code objects: those of [decorator.py] and the client's. [Cpipe_lambda]
    is the [lambda fn, /, *args, **kwargs: ...] inside [pipe]. *)
Inductive code : Type :=
| Cdecorated
| Cpipe
| Cpipe_lambda
| Ccompose
| Coptional
| Coptional2
| Cuser (u : U).

(** [VUndefined] is the module's [__undefined = object()]: a single object,
    compared by identity.  A function object is a code object with the
    values its free variables are bound to.  A partial object keeps its
    instance [__dict__], [func], [args] and [keywords]. *)
Inductive value : Type :=
| VNone
| VUndefined
| VInt (z : Z)
| VStr (s : string)
| VTuple (items : list value)
| VFunction (c : code) (closure : list value)
| VPartial (attrs : list (string * value)) (func : value)
           (args : list value) (keywords : list (string * value)).

Definition kwdict := dict value.

Inductive exn : Type :=
| TypeError (msg : string)
| Exception (payload : value).

Inductive result : Type :=
| Ok (v : value)
| Err (e : exn).

Definition __undefined : value := VUndefined.

Definition is_None (v : value) : bool :=
  match v with VNone => true | _ => false end.

Definition is_undefined (v : value) : bool :=
  match v with VUndefined => true | _ => false end.

(** The builtin [callable]. *)
Definition callable (v : value) : bool :=
  match v with
  | VFunction _ _ | VPartial _ _ _ _ => true
  | _ => false
  end.

(** ** Attributes

    Classes of the values above, and what attribute lookup finds on the
    class ([__doc__] of [int], [__module__] of [partial], ...).  A function
    object's attributes ([__name__], [__doc__], ...) are fixed by its [def];
    functions carry no further instance attributes here. *)
Inductive pytype : Type :=
| TNoneType | TObject | TInt | TStr | TTuple | TFunction | TPartial.

Variable type_attr : pytype -> string -> option value.
Variable fn_attr : code -> list value -> string -> option value.

Definition getattr (o : value) (a : string) : option value :=
  match o with
  | VNone => type_attr TNoneType a
  | VUndefined => type_attr TObject a
  | VInt _ => type_attr TInt a
  | VStr _ => type_attr TStr a
  | VTuple _ => type_attr TTuple a
  | VFunction c closure => fn_attr c closure a
  | VPartial attrs _ _ _ =>
      match dict_get attrs a with
      | Some v => Some v
      | None => type_attr TPartial a
      end
  end.

(** [getattr(o, '__dict__', {})]. *)
Definition instance_dict (o : value) : dict value :=
  match o with
  | VPartial attrs _ _ _ => attrs
  | _ => []
  end.

(** Attribute assignment on a partial object (the only objects the module
    assigns to). *)
Definition setattr (o : value) (a : string) (v : value) : value :=
  match o with
  | VPartial attrs f args kw => VPartial (dict_set attrs a v) f args kw
  | _ => o
  end.

(** ** functools *)

(** [partial(func, *args)]: a new partial object with an empty [__dict__].
    (CPython may merge a [func] that is itself a partial object without
    attributes into the new object; the merged object makes the same
    calls.) *)
Definition partial (func : value) (args : list value) : result :=
  if callable func then Ok (VPartial [] func args [])
  else Err (TypeError "the first argument must be callable").

(** As in the CPython versions that have positional-only parameters. *)
Definition WRAPPER_ASSIGNMENTS : list string :=
  ["__module__"; "__name__"; "__qualname__"; "__doc__"; "__annotations__"].

Definition assign_from (wrapped : value) (wrapper : value) (a : string)
  : value :=
  match getattr wrapped a with
  | Some v => setattr wrapper a v
  | None => wrapper
  end.

(** [update_wrapper(wrapper, wrapped)]: copy the attributes named in
    [WRAPPER_ASSIGNMENTS] that [wrapped] has, merge [wrapped.__dict__] into
    [wrapper.__dict__], set [__wrapped__], return [wrapper]. *)
Definition update_wrapper (wrapper wrapped : value) : value :=
  let w1 := fold_left (assign_from wrapped) WRAPPER_ASSIGNMENTS wrapper in
  let w2 :=
    match w1 with
    | VPartial attrs f args kw =>
        VPartial (dict_update attrs (instance_dict wrapped)) f args kw
    | _ => w1
    end in
  setattr w2 "__wrapped__" wrapped.

(** The [__dict__] that [update_wrapper] leaves on a new partial object. *)
Definition copied_attrs (wrapped : value) (names : list string)
                        (attrs : dict value) : dict value :=
  fold_left (fun d a => match getattr wrapped a with
                        | Some v => dict_set d a v
                        | None => d
                        end) names attrs.

Definition wrapper_attrs (wrapped : value) : dict value :=
  dict_set (dict_update (copied_attrs wrapped WRAPPER_ASSIGNMENTS [])
                        (instance_dict wrapped))
           "__wrapped__" wrapped.

(** ** decorated *)

Definition decorated_fn : value := VFunction Cdecorated [].

(** The two objects [decorated] builds: [partial(decorated, f)] carrying
    the attributes of [f], and [partial(f, g)] carrying those of [g]. *)
Definition pending (f : value) : value :=
  VPartial (wrapper_attrs f) decorated_fn [f] [].

Definition wrapper (f g : value) : value :=
  VPartial (wrapper_attrs g) f [g] [].

(** Wrappers put one on another: [decorated(f1)(decorated(f2)(... t))]. *)
Definition stacked (fs : list value) (t : value) : value :=
  fold_right wrapper t fs.

(** The body of [decorated] once [f] and [g] are bound. *)
Definition decorated (f g : value) : result :=
  if is_None g then
    match partial decorated_fn [f] with
    | Ok p => Ok (update_wrapper p f)
    | Err e => Err e
    end
  else
    match partial f [g] with
    | Ok p => Ok (update_wrapper p g)
    | Err e => Err e
    end.

(** Binding of [decorated(f, g=None, /)]. *)
Definition decorated_call (args : list value) (kw : kwdict) : result :=
  match kw, args with
  | _ :: _, _ =>
      Err (TypeError "decorated() got an unexpected keyword argument")
  | [], [] =>
      Err (TypeError "decorated() missing 1 required positional argument: 'f'")
  | [], [f] => decorated f VNone
  | [], [f; g] => decorated f g
  | [], _ =>
      Err (TypeError "decorated() takes from 1 to 2 positional arguments")
  end.

(** ** Programs

    What a function body does: return, raise, call a value (and go on with
    what the call returned or raised), or act on the world (print, update
    a counter).  [W] is the state of the world outside the module. *)
Variable W : Type.

Inductive prog : Type :=
| Return (v : value)
| Throw (e : exn)
| Invoke (callee : value) (args : list value) (kwargs : kwdict)
         (k : result -> prog)
| Effect (act : W -> W * value) (k : value -> prog).

Definition lift (r : result) : prog :=
  match r with
  | Ok v => Return v
  | Err e => Throw e
  end.

(** A call of [callee] with [args] and [kwargs] whose exception, if any,
    propagates. *)
Definition invoke (callee : value) (args : list value) (kwargs : kwdict)
                  (k : value -> prog) : prog :=
  Invoke callee args kwargs
    (fun r => match r with Ok v => k v | Err e => Throw e end).

(** Bodies of the client's functions: closure, positional arguments,
    keyword arguments. *)
Variable body : U -> list value -> list value -> kwdict -> prog.

(** ** pipe and compose *)

Definition pipe_fn : value := VFunction Cpipe [].
Definition compose_fn : value := VFunction Ccompose [].

(** [reduce(lambda f, g, /: g(f), decorators, initial)]. *)
Fixpoint reduce_apply (decorators : list value) (acc : value) : prog :=
  match decorators with
  | [] => Return acc
  | g :: rest => invoke g [acc] [] (reduce_apply rest)
  end.

(** The lambda of [pipe]; [decorators] is its one free variable. *)
Definition pipe_lambda (closure args : list value) (kw : kwdict) : prog :=
  match closure, args with
  | [VTuple decorators], fn :: args' =>
      invoke fn args' kw (reduce_apply decorators)
  | [VTuple _], [] =>
      Throw (TypeError "<lambda>() missing 1 required positional argument: 'fn'")
  | _, _ => Throw (TypeError "malformed closure")
  end.

(** The function object the [lambda] expression evaluates to. *)
Definition pipe_closure (decorators : list value) : value :=
  VFunction Cpipe_lambda [VTuple decorators].

Definition pipe (decorators : list value) : prog :=
  invoke decorated_fn [pipe_closure decorators] [] Return.

Definition pipe_call (args : list value) (kw : kwdict) : prog :=
  match kw with
  | [] => pipe args
  | _ :: _ => Throw (TypeError "pipe() got an unexpected keyword argument")
  end.

Definition compose (decorators : list value) : prog :=
  invoke pipe_fn (rev decorators) [] Return.

Definition compose_call (args : list value) (kw : kwdict) : prog :=
  match kw with
  | [] => compose args
  | _ :: _ => Throw (TypeError "compose() got an unexpected keyword argument")
  end.

(** ** optional and optional2 (the functions under [@decorated]) *)

Definition optional_def (f g : value) (kwargs : kwdict) : prog :=
  if is_undefined g then invoke f [] kwargs Return
  else invoke f [] kwargs (fun wrapper => invoke wrapper [g] [] Return).

(** Binding of [(f, g=__undefined, /, **kwargs)]. *)
Definition optional_call (args : list value) (kw : kwdict) : prog :=
  match args with
  | [] =>
      Throw (TypeError "optional() missing 1 required positional argument: 'f'")
  | [f] => optional_def f __undefined kw
  | [f; g] => optional_def f g kw
  | _ =>
      Throw (TypeError "optional() takes from 1 to 2 positional arguments")
  end.

Definition optional2_def (f g : value) (args : list value) (kwargs : kwdict)
  : prog :=
  if is_undefined g then invoke f args kwargs Return
  else if callable g then
    invoke f args kwargs (fun wrapper => invoke wrapper [g] [] Return)
  else invoke f (g :: args) kwargs Return.

(** Binding of [(f, g=__undefined, /, *args, **kwargs)]. *)
Definition optional2_call (args : list value) (kw : kwdict) : prog :=
  match args with
  | [] =>
      Throw (TypeError "optional2() missing 1 required positional argument: 'f'")
  | [f] => optional2_def f __undefined [] kw
  | f :: g :: args' => optional2_def f g args' kw
  end.

(** ** Calls *)

Definition code_body (c : code) (closure args : list value) (kw : kwdict)
  : prog :=
  match c with
  | Cdecorated => lift (decorated_call args kw)
  | Cpipe => pipe_call args kw
  | Cpipe_lambda => pipe_lambda closure args kw
  | Ccompose => compose_call args kw
  | Coptional => optional_call args kw
  | Coptional2 => optional2_call args kw
  | Cuser u => body u closure args kw
  end.

Definition outcome : Type := option (result * W).

(** Run a body; [callf] performs the calls it makes.  [None]: the budget of
    nested calls ran out. *)
Fixpoint run (callf : value -> list value -> kwdict -> W -> outcome)
             (p : prog) (w : W) : outcome :=
  match p with
  | Return v => Some (Ok v, w)
  | Throw e => Some (Err e, w)
  | Invoke f args kw k =>
      match callf f args kw w with
      | Some (r, w') => run callf (k r) w'
      | None => None
      end
  | Effect act k => let (w', v) := act w in run callf (k v) w'
  end.

(** A call of [callee] with [args] and [kw], at most [n] calls nested.  Calling a partial
    object calls its [func] with [args] in front and [keywords] overridden
    by the call's. *)
Fixpoint call (n : nat) (callee : value) (args : list value) (kw : kwdict)
              (w : W) : outcome :=
  match n with
  | O => None
  | S n' =>
      match callee with
      | VFunction c closure => run (call n') (code_body c closure args kw) w
      | VPartial _ func pargs pkw =>
          call n' func (pargs ++ args) (dict_update pkw kw) w
      | _ => Some (Err (TypeError "object is not callable"), w)
      end
  end.

Definition exec (n : nat) (p : prog) (w : W) : outcome := run (call n) p w.

(** Big-step reading: the call, or the program, ends in outcome [o]. *)
Definition calls (callee : value) (args : list value) (kw : kwdict)
                 (w : W) (o : result * W) : Prop :=
  exists n, call n callee args kw w = Some o.

Definition evaluates (p : prog) (w : W) (o : result * W) : Prop :=
  exists n, exec n p w = Some o.

(** Two programs are indistinguishable: the same result or exception and
    the same world from every world, and neither ends unless the other
    does. *)
Definition equiv (p q : prog) : Prop :=
  forall w o, evaluates p w o <-> evaluates q w o.

(** ** The module's globals [optional] and [optional2] *)

Definition optional_fn : value := VFunction Coptional [].
Definition optional2_fn : value := VFunction Coptional2 [].

Definition from_result (r : result) : value :=
  match r with Ok v => v | Err _ => VNone end.

(** [@decorated def optional(...)]. *)
Definition optional : value := from_result (decorated optional_fn VNone).

(** [@decorated def optional2(...)]. *)
Definition optional2 : value := from_result (decorated optional2_fn VNone).

End Decorator.

Arguments Cdecorated {U}.
Arguments Cpipe {U}.
Arguments Cpipe_lambda {U}.
Arguments Ccompose {U}.
Arguments Coptional {U}.
Arguments Coptional2 {U}.
Arguments Cuser {U} u.
Arguments VNone {U}.
Arguments VUndefined {U}.
Arguments VInt {U} z.
Arguments VStr {U} s.
Arguments VTuple {U} items.
Arguments VFunction {U} c closure.
Arguments VPartial {U} attrs func args keywords.
Arguments TypeError {U} msg.
Arguments Exception {U} payload.
Arguments Ok {U} v.
Arguments Err {U} e.
Arguments __undefined {U}.
Arguments is_None {U} v.
Arguments is_undefined {U} v.
Arguments callable {U} v.
Arguments getattr {U} type_attr fn_attr o a.
Arguments instance_dict {U} o.
Arguments setattr {U} o a v.
Arguments partial {U} func args.
Arguments assign_from {U} type_attr fn_attr wrapped wrapper a.
Arguments update_wrapper {U} type_attr fn_attr wrapper wrapped.
Arguments copied_attrs {U} type_attr fn_attr wrapped names attrs.
Arguments wrapper_attrs {U} type_attr fn_attr wrapped.
Arguments decorated_fn {U}.
Arguments pending {U} type_attr fn_attr f.
Arguments wrapper {U} type_attr fn_attr f g.
Arguments stacked {U} type_attr fn_attr fs t.
Arguments decorated {U} type_attr fn_attr f g.
Arguments decorated_call {U} type_attr fn_attr args kw.
Arguments Return {U W} v.
Arguments Throw {U W} e.
Arguments Invoke {U W} callee args kwargs k.
Arguments Effect {U W} act k.
Arguments lift {U W} r.
Arguments invoke {U W} callee args kwargs k.
Arguments pipe_fn {U}.
Arguments compose_fn {U}.
Arguments reduce_apply {U W} decorators acc.
Arguments pipe_lambda {U W} closure args kw.
Arguments pipe_closure {U} decorators.
Arguments pipe {U W} decorators.
Arguments pipe_call {U W} args kw.
Arguments compose {U W} decorators.
Arguments compose_call {U W} args kw.
Arguments optional_def {U W} f g kwargs.
Arguments optional_call {U W} args kw.
Arguments optional2_def {U W} f g args kwargs.
Arguments optional2_call {U W} args kw.
Arguments code_body {U} type_attr fn_attr {W} body c closure args kw.
Arguments run {U W} callf p w.
Arguments call {U} type_attr fn_attr {W} body n callee args kw w.
Arguments exec {U} type_attr fn_attr {W} body n p w.
Arguments calls {U} type_attr fn_attr {W} body callee args kw w o.
Arguments evaluates {U} type_attr fn_attr {W} body p w o.
Arguments equiv {U} type_attr fn_attr {W} body p q.
Arguments optional_fn {U}.
Arguments optional2_fn {U}.
Arguments from_result {U} r.
Arguments optional {U} type_attr fn_attr.
Arguments optional2 {U} type_attr fn_attr.

(** ** The clients of the docstrings

  The functions the docstrings of [optional] and [optional2] decorate,
  and two more.  The world is what has been printed. *)

Module Doctest.

Inductive client : Type :=
| Foo       (* def foo(bar='bar', baz='baz'): ... return wrapped *)
| Foo1      (* def foo(bar, baz='baz'): ... return wrapped *)
| Wrapped   (* def wrapped(fn, /, *args, **kwargs), closes over bar, baz *)
| Baba1     (* def baba1(): print('baba1') *)
| Ten       (* def ten(): return 10 *)
| MakeTen   (* def make_ten(): return ten *)
| Inc.      (* def inc(fn, /, *args, **kwargs): return fn(...) + 1 *)

Definition val : Type := value client.
Definition stdout : Type := list val.
Definition program : Type := prog client stdout.

Definition print (v : val) (k : program) : program :=
  Effect (fun out => ((out ++ [v])%list, VNone)) (fun _ => k).

Definition client_name (u : client) : string :=
  match u with
  | Foo | Foo1 => "foo"
  | Wrapped => "wrapped"
  | Baba1 => "baba1"
  | Ten => "ten"
  | MakeTen => "make_ten"
  | Inc => "inc"
  end.

Definition client_qualname (u : client) : string :=
  match u with
  | Wrapped => "foo.<locals>.wrapped"
  | _ => client_name u
  end.

Definition code_name (c : code client) : string :=
  match c with
  | Cdecorated => "decorated"
  | Cpipe => "pipe"
  | Cpipe_lambda => "<lambda>"
  | Ccompose => "compose"
  | Coptional => "optional"
  | Coptional2 => "optional2"
  | Cuser u => client_name u
  end.

Definition code_qualname (c : code client) : string :=
  match c with
  | Cpipe_lambda => "pipe.<locals>.<lambda>"
  | Cuser u => client_qualname u
  | _ => code_name c
  end.

Definition code_module (c : code client) : string :=
  match c with
  | Cuser _ => "__main__"
  | _ => "decorator.decorator"
  end.

(** Attributes of function objects.  Docstrings are as under [python -OO]
    (none); [__annotations__] is not tabulated. *)
Definition fn_attr (c : code client) (closure : list val) (a : string)
  : option val :=
  if String.eqb a "__name__" then Some (VStr (code_name c))
  else if String.eqb a "__qualname__" then Some (VStr (code_qualname c))
  else if String.eqb a "__module__" then Some (VStr (code_module c))
  else if String.eqb a "__doc__" then Some VNone
  else None.

(** Class attributes: the first line of each class's [__doc__], and
    [__module__] as an instance of [partial] sees it. *)
Definition type_attr (t : pytype) (a : string) : option val :=
  if String.eqb a "__doc__" then
    match t with
    | TNoneType => Some VNone
    | TObject => Some (VStr "The base class of the class hierarchy.")
    | TInt => Some (VStr "int([x]) -> integer")
    | TStr => Some (VStr "str(object='') -> str")
    | TTuple => Some (VStr "Built-in immutable sequence.")
    | TFunction => Some (VStr "Create a function object.")
    | TPartial => Some (VStr "Create a new function with partial application of the given arguments and keywords.")
    end
  else if String.eqb a "__module__" then
    match t with
    | TPartial => Some (VStr "functools")
    | _ => None
    end
  else None.

(** One parameter of a [def]: given by position, by keyword, or defaulted. *)
Definition param (name : string) (pos : option val) (kw : kwdict client)
                 (default : option val) : exn client + val :=
  match pos, dict_get kw name, default with
  | Some _, Some _, _ =>
      inl (TypeError ("foo() got multiple values for argument '" ++ name ++ "'")%string)
  | Some v, None, _ => inr v
  | None, Some v, _ => inr v
  | None, None, Some d => inr d
  | None, None, None =>
      inl (TypeError ("foo() missing 1 required positional argument: '" ++ name ++ "'")%string)
  end.

Definition known_keywords (kw : kwdict client) : bool :=
  forallb (fun kv => String.eqb (fst kv) "bar" || String.eqb (fst kv) "baz") kw.

(** Both [foo]s: bind [bar] and [baz], return [decorated(wrapped)]. *)
Definition foo_body (bar_default : option val) (args : list val)
                    (kw : kwdict client) : program :=
  if negb (known_keywords kw) then
    Throw (TypeError "foo() got an unexpected keyword argument")
  else if Nat.ltb 2 (List.length args) then
    Throw (TypeError "foo() takes from 0 to 2 positional arguments")
  else
    match param "bar" (nth_error args 0) kw bar_default with
    | inl e => Throw e
    | inr bar =>
        match param "baz" (nth_error args 1) kw (Some (VStr "baz")) with
        | inl e => Throw e
        | inr baz =>
            invoke decorated_fn [VFunction (Cuser Wrapped) [bar; baz]] []
                   Return
        end
    end.

Definition wrapped_body (closure args : list val) (kw : kwdict client)
  : program :=
  match closure, args with
  | [bar; baz], fn :: args' =>
      print bar (invoke fn args' kw (fun r => print baz (Return r)))
  | _, _ =>
      Throw (TypeError "wrapped() missing 1 required positional argument: 'fn'")
  end.

Definition no_arguments (name : string) (args : list val)
                        (kw : kwdict client) (p : program) : program :=
  match args, kw with
  | [], [] => p
  | _, _ => Throw (TypeError (name ++ "() takes 0 positional arguments")%string)
  end.

Definition inc_body (args : list val) (kw : kwdict client) : program :=
  match args with
  | fn :: args' =>
      invoke fn args' kw (fun r =>
        match r with
        | VInt z => Return (VInt (z + 1))
        | _ => Throw (TypeError "unsupported operand type(s) for +")
        end)
  | [] => Throw (TypeError "inc() missing 1 required positional argument: 'fn'")
  end.

Definition body (u : client) (closure args : list val) (kw : kwdict client)
  : program :=
  match u with
  | Foo => foo_body (Some (VStr "bar")) args kw
  | Foo1 => foo_body None args kw
  | Wrapped => wrapped_body closure args kw
  | Baba1 => no_arguments "baba1" args kw (print (VStr "baba1") (Return VNone))
  | Ten => no_arguments "ten" args kw (Return (VInt 10))
  | MakeTen =>
      no_arguments "make_ten" args kw (Return (VFunction (Cuser Ten) []))
  | Inc => inc_body args kw
  end.

Definition fn (u : client) : val := VFunction (Cuser u) [].

Definition py_call := call type_attr fn_attr body.
Definition py_exec := exec type_attr fn_attr body.
Definition py_calls := calls type_attr fn_attr body.
Definition py_evaluates := evaluates type_attr fn_attr body.
Definition py_equiv := equiv type_attr fn_attr body.
Definition py_decorated := decorated type_attr fn_attr.
Definition py_getattr := getattr type_attr fn_attr.
Definition py_pending := pending type_attr fn_attr.
Definition py_wrapper := wrapper type_attr fn_attr.
Definition py_stacked := stacked type_attr fn_attr.
Definition py_optional : val := optional type_attr fn_attr.
Definition py_optional2 : val := optional2 type_attr fn_attr.

(** [@decorated def inc(fn, /, *args, **kwargs)]. *)
Definition inc : val := from_result (py_decorated (fn Inc) VNone).

(** The wrapper definition of the docstrings, closed over the defaults. *)
Definition wrapped_bar_baz : val :=
  VFunction (Cuser Wrapped) [VStr "bar"; VStr "baz"].

(** The three groupings of [pipe] over [inc], applied to [make_ten]; the
    wrapper is called, and so is what it returns. *)
Definition run_twice (composed : val) : program :=
  invoke composed [fn MakeTen] []
    (fun r => invoke r [] [] (fun x => invoke x [] [] Return)).

Definition pipe_flat : program :=
  invoke pipe_fn [inc; inc; inc] [] run_twice.

Definition pipe_right : program :=
  invoke pipe_fn [inc; inc] []
    (fun bc => invoke pipe_fn [inc; bc] [] run_twice).

Definition pipe_left : program :=
  invoke pipe_fn [inc; inc] []
    (fun ab => invoke pipe_fn [ab; inc] [] run_twice).

End Doctest.

(** * Theory *)

(** ** Dictionaries *)

Section DictFacts.
Context {V : Type}.
Implicit Types (d other : dict V) (k : string) (v : V).

Lemma dict_get_set_same d k v : dict_get (dict_set d k v) k = Some v.
Proof.
  induction d as [|[k' v'] d IH]; simpl.
  - now rewrite String.eqb_refl.
  - destruct (String.eqb k k') eqn:E; simpl; rewrite E; auto.
Qed.

Lemma dict_get_set_other d k k' v :
  k' <> k -> dict_get (dict_set d k v) k' = dict_get d k'.
Proof.
  intros Hne. induction d as [|[k0 v0] d IH]; simpl.
  - destruct (String.eqb k' k) eqn:E; auto.
    apply String.eqb_eq in E. contradiction.
  - destruct (String.eqb k k0) eqn:E; simpl.
    + apply String.eqb_eq in E. subst k0.
      destruct (String.eqb k' k) eqn:E'; auto.
      apply String.eqb_eq in E'. contradiction.
    + now rewrite IH.
Qed.

Lemma dict_get_update d other k :
  dict_get (dict_update d other) k =
  match dict_get (rev other) k with
  | Some v => Some v
  | None => dict_get d k
  end.
Proof.
  unfold dict_update. revert d.
  induction other as [|[k0 v0] other IH] using rev_ind; intros d; simpl.
  - reflexivity.
  - rewrite fold_left_app, rev_app_distr. simpl.
    destruct (String.eqb k k0) eqn:E.
    + apply String.eqb_eq in E. subst k0. apply dict_get_set_same.
    + rewrite dict_get_set_other.
      * apply IH.
      * intros ->. now rewrite String.eqb_refl in E.
Qed.

Lemma dict_update_nil_r d : dict_update d [] = d.
Proof. reflexivity. Qed.

Lemma dict_set_fresh d k v :
  has_key d k = false -> dict_set d k v = d ++ [(k, v)].
Proof.
  induction d as [|[k' v'] d IH]; simpl; auto.
  intros H. apply orb_false_iff in H as [E H].
  rewrite E. now rewrite IH.
Qed.

Lemma has_key_app d1 d2 k : has_key (d1 ++ d2) k = has_key d1 k || has_key d2 k.
Proof. apply existsb_app. Qed.

Lemma dict_update_fresh d other :
  dict_wf other = true ->
  (forall k, has_key other k = true -> has_key d k = false) ->
  dict_update d other = d ++ other.
Proof.
  unfold dict_update. revert d.
  induction other as [|[k v] other IH]; intros d Hwf Hd; simpl.
  - now rewrite app_nil_r.
  - simpl in Hwf. apply andb_true_iff in Hwf as [Hk Hwf].
    apply negb_true_iff in Hk.
    rewrite dict_set_fresh.
    + rewrite IH; auto.
      * now rewrite <- app_assoc.
      * intros k' Hk'. rewrite has_key_app. simpl.
        rewrite Hd by (simpl; rewrite Hk'; apply orb_true_r).
        destruct (String.eqb k' k) eqn:E; auto.
        apply String.eqb_eq in E. congruence.
    + apply Hd. simpl. now rewrite String.eqb_refl.
Qed.

Lemma dict_get_app d1 d2 k :
  dict_get (d1 ++ d2) k =
  match dict_get d1 k with Some v => Some v | None => dict_get d2 k end.
Proof.
  induction d1 as [|[k' v'] d1 IH]; simpl; auto.
  destruct (String.eqb k k'); auto.
Qed.

Lemma dict_get_absent d k : has_key d k = false -> dict_get d k = None.
Proof.
  induction d as [|[k' v'] d IH]; simpl; auto.
  intros H. apply orb_false_iff in H as [E H]. rewrite E. auto.
Qed.

Lemma has_key_rev d k : has_key (rev d) k = has_key d k.
Proof.
  induction d as [|kv d IH]; simpl; auto.
  rewrite has_key_app, IH. simpl. rewrite orb_false_r. apply orb_comm.
Qed.

(** In a dictionary the order of the items does not change a lookup. *)
Lemma dict_get_rev d k : dict_wf d = true -> dict_get (rev d) k = dict_get d k.
Proof.
  induction d as [|[k' v'] d IH]; simpl; auto.
  intros H. apply andb_true_iff in H as [Hk Hwf]. apply negb_true_iff in Hk.
  rewrite dict_get_app, IH by assumption. simpl.
  destruct (String.eqb k k') eqn:E.
  - apply String.eqb_eq in E. subst k'. now rewrite dict_get_absent.
  - now destruct (dict_get d k).
Qed.

Lemma has_key_set d k k' v :
  has_key (dict_set d k v) k' = has_key d k' || String.eqb k' k.
Proof.
  induction d as [|[k0 v0] d IH]; simpl.
  - now rewrite orb_false_r.
  - destruct (String.eqb k k0) eqn:E; simpl.
    + apply String.eqb_eq in E. subst k0.
      destruct (String.eqb k' k); simpl; auto. now rewrite orb_false_r.
    + rewrite IH. now rewrite orb_assoc.
Qed.

(** Assignment keeps a dictionary a dictionary. *)
Lemma dict_wf_set d k v : dict_wf d = true -> dict_wf (dict_set d k v) = true.
Proof.
  induction d as [|[k0 v0] d IH]; simpl; auto.
  intros H. apply andb_true_iff in H as [Hk Hwf].
  destruct (String.eqb k k0) eqn:E; simpl.
  - now rewrite Hk, Hwf.
  - rewrite has_key_set, IH by assumption.
    apply negb_true_iff in Hk. rewrite Hk. simpl.
    rewrite String.eqb_sym, E. reflexivity.
Qed.

Lemma dict_wf_update d other :
  dict_wf d = true -> dict_wf (dict_update d other) = true.
Proof.
  unfold dict_update. revert d.
  induction other as [|[k v] other IH]; intros d H; simpl; auto.
  apply IH. now apply dict_wf_set.
Qed.

(** Merging a dictionary into the empty one gives it back. *)
Lemma dict_update_empty other : dict_wf other = true -> dict_update [] other = other.
Proof. intros H. now apply dict_update_fresh. Qed.
End DictFacts.

(** ** The call budget *)

Ltac unfold_steps := unfold evaluates, calls, exec in *.

Section Budget.
Context {U W : Type}.
Variable type_attr : pytype -> string -> option (value U).
Variable fn_attr : code U -> list (value U) -> string -> option (value U).
Variable body : U -> list (value U) -> list (value U) -> kwdict U -> prog U W.

Local Notation call := (call type_attr fn_attr body).
Local Notation exec := (exec type_attr fn_attr body).
Local Notation calls := (calls type_attr fn_attr body).
Local Notation evaluates := (evaluates type_attr fn_attr body).
Local Notation equiv := (equiv type_attr fn_attr body).

Definition callf_le
  (c1 c2 : value U -> list (value U) -> kwdict U -> W -> outcome U W) : Prop :=
  forall f args kw w o, c1 f args kw w = Some o -> c2 f args kw w = Some o.

Lemma run_mono c1 c2 :
  callf_le c1 c2 ->
  forall p w o, run c1 p w = Some o -> run c2 p w = Some o.
Proof.
  intros Hle p.
  induction p as [v|e|f args kw k IH|act k IH]; simpl; intros w o H; auto.
  - destruct (c1 f args kw w) as [[r w']|] eqn:E; [|discriminate].
    rewrite (Hle _ _ _ _ _ E). now apply IH.
  - destruct (act w) as [w' v]. now apply IH.
Qed.

Lemma call_S n : callf_le (call n) (call (S n)).
Proof.
  induction n as [|n IH]; intros f args kw w o H; [discriminate|].
  revert H. simpl.
  destruct f; auto.
  - apply run_mono. exact IH.
  - apply IH.
Qed.

Lemma call_mono n m : n <= m -> callf_le (call n) (call m).
Proof.
  induction 1 as [|m _ IH]; intros f args kw w o H; auto.
  now apply call_S, IH.
Qed.

Lemma exec_mono n m p w o :
  n <= m -> exec n p w = Some o -> exec m p w = Some o.
Proof. intros Hle. apply run_mono. now apply call_mono. Qed.

Lemma calls_det f args kw w o1 o2 :
  calls f args kw w o1 -> calls f args kw w o2 -> o1 = o2.
Proof.
  intros [n Hn] [m Hm].
  apply (call_mono _ _ (Nat.le_max_l n m)) in Hn.
  apply (call_mono _ _ (Nat.le_max_r n m)) in Hm.
  congruence.
Qed.

Lemma evaluates_det p w o1 o2 :
  evaluates p w o1 -> evaluates p w o2 -> o1 = o2.
Proof.
  intros [n Hn] [m Hm].
  apply (exec_mono _ _ _ _ _ (Nat.le_max_l n m)) in Hn.
  apply (exec_mono _ _ _ _ _ (Nat.le_max_r n m)) in Hm.
  congruence.
Qed.

(** *** Big-step rules *)

Lemma evaluates_Return v w o : evaluates (Return v) w o <-> o = (Ok v, w).
Proof.
  unfold_steps. split.
  - intros [n H]. simpl in H. congruence.
  - intros ->. now exists 0.
Qed.

Lemma evaluates_Throw e w o : evaluates (Throw e) w o <-> o = (Err e, w).
Proof.
  unfold_steps. split.
  - intros [n H]. simpl in H. congruence.
  - intros ->. now exists 0.
Qed.

Lemma evaluates_lift r w o : evaluates (lift r) w o <-> o = (r, w).
Proof. destruct r; [apply evaluates_Return | apply evaluates_Throw]. Qed.

Lemma evaluates_Invoke f args kw k w o :
  evaluates (Invoke f args kw k) w o <->
  exists r w', calls f args kw w (r, w') /\ evaluates (k r) w' o.
Proof.
  unfold_steps. split.
  - intros [n H]. simpl in H.
    destruct (call n f args kw w) as [[r w']|] eqn:E; [|discriminate].
    exists r, w'. split; now exists n.
  - intros (r & w' & [n Hn] & [m Hm]).
    exists (Nat.max n m). simpl.
    rewrite (call_mono _ _ (Nat.le_max_l n m) _ _ _ _ _ Hn).
    exact (exec_mono _ _ _ _ _ (Nat.le_max_r n m) Hm).
Qed.

Lemma evaluates_invoke f args kw k w o :
  evaluates (invoke f args kw k) w o <->
  (exists v w', calls f args kw w (Ok v, w') /\ evaluates (k v) w' o) \/
  (exists e, calls f args kw w (Err e, snd o) /\ fst o = Err e).
Proof.
  unfold invoke. rewrite evaluates_Invoke. split.
  - intros ([v|e] & w' & Hc & He).
    + left. now exists v, w'.
    + right. apply evaluates_Throw in He. subst o. now exists e.
  - intros [(v & w' & Hc & He)|(e & Hc & He)].
    + now exists (Ok v), w'.
    + exists (Err e), (snd o). split; auto.
      apply evaluates_Throw. destruct o; simpl in *; congruence.
Qed.

(** A tail call: [return callee(...)]. *)
Lemma evaluates_tail_call f args kw w o :
  evaluates (invoke f args kw Return) w o <-> calls f args kw w o.
Proof.
  unfold invoke. rewrite evaluates_Invoke. split.
  - intros ([v|e] & w' & Hc & He).
    + apply evaluates_Return in He. now subst o.
    + apply evaluates_Throw in He. now subst o.
  - intros Hc. destruct o as [[v|e] w'].
    + exists (Ok v), w'. split; auto. now apply evaluates_Return.
    + exists (Err e), w'. split; auto. now apply evaluates_Throw.
Qed.

Lemma evaluates_Effect act k w o :
  evaluates (Effect act k) w o <-> evaluates (k (snd (act w))) (fst (act w)) o.
Proof.
  unfold_steps. simpl. destruct (act w) as [w' v]. reflexivity.
Qed.

Lemma calls_function c closure args kw w o :
  calls (VFunction c closure) args kw w o <->
  evaluates (code_body type_attr fn_attr body c closure args kw) w o.
Proof.
  unfold_steps. split.
  - intros [[|n] H]; [discriminate|]. now exists n.
  - intros [n H]. now exists (S n).
Qed.

Lemma calls_partial attrs func pargs pkw args kw w o :
  calls (VPartial attrs func pargs pkw) args kw w o <->
  calls func (pargs ++ args) (dict_update pkw kw) w o.
Proof.
  unfold_steps. split.
  - intros [[|n] H]; [discriminate|]. now exists n.
  - intros [n H]. now exists (S n).
Qed.

Lemma calls_not_callable f args kw w o :
  callable f = false ->
  calls f args kw w o <-> o = (Err (TypeError "object is not callable"), w).
Proof.
  unfold_steps. intros Hf. split.
  - intros [[|n] H]; [discriminate|].
    destruct f; simpl in *; try discriminate; congruence.
  - intros ->. exists 1. destruct f; simpl in *; try discriminate; reflexivity.
Qed.

(** Once the call is known to return [v], the program goes on with [k v]. *)
Lemma evaluates_invoke_ok f args kw k v w w' o :
  calls f args kw w (Ok v, w') ->
  evaluates (invoke f args kw k) w o <-> evaluates (k v) w' o.
Proof.
  intros Hc. rewrite evaluates_invoke. split.
  - intros [(v1 & w1 & Hc1 & He)|(e & Hc1 & _)].
    + pose proof (calls_det _ _ _ _ _ _ Hc Hc1) as E.
      injection E as -> ->. exact He.
    + pose proof (calls_det _ _ _ _ _ _ Hc Hc1). discriminate.
  - intros He. left. now exists v, w'.
Qed.

(** Only a callable returns. *)
Lemma calls_ok_callable f args kw w v w' :
  calls f args kw w (Ok v, w') -> callable f = true.
Proof.
  intros H. destruct (callable f) eqn:E; auto.
  apply (calls_not_callable _ _ _ _ _ E) in H. discriminate.
Qed.

(** *** Indistinguishable programs *)

Lemma equiv_refl p : equiv p p.
Proof. intros w o. reflexivity. Qed.

Lemma equiv_sym p q : equiv p q -> equiv q p.
Proof. intros H w o. symmetry. apply H. Qed.

Lemma equiv_trans p q r : equiv p q -> equiv q r -> equiv p r.
Proof. intros H1 H2 w o. rewrite (H1 w o). apply H2. Qed.

Lemma equiv_Invoke f args kw k1 k2 :
  (forall r, equiv (k1 r) (k2 r)) ->
  equiv (Invoke f args kw k1) (Invoke f args kw k2).
Proof.
  intros H w o. rewrite !evaluates_Invoke.
  split; intros (r & w' & Hc & He); exists r, w'; split; auto; now apply H.
Qed.

Lemma equiv_invoke f args kw k1 k2 :
  (forall v, equiv (k1 v) (k2 v)) ->
  equiv (invoke f args kw k1) (invoke f args kw k2).
Proof.
  intros H. apply equiv_Invoke. intros [v|e]; [apply H | apply equiv_refl].
Qed.

Lemma equiv_callee f1 args1 kw1 f2 args2 kw2 k :
  (forall w o, calls f1 args1 kw1 w o <-> calls f2 args2 kw2 w o) ->
  equiv (Invoke f1 args1 kw1 k) (Invoke f2 args2 kw2 k).
Proof.
  intros H w o. rewrite !evaluates_Invoke.
  split; intros (r & w' & Hc & He); exists r, w'; split; auto; now apply H.
Qed.

(** A call that returns without touching the world can be dropped. *)
Lemma equiv_invoke_pure f args kw k v :
  (forall w, calls f args kw w (Ok v, w)) ->
  equiv (invoke f args kw k) (k v).
Proof. intros H w o. now apply evaluates_invoke_ok. Qed.

Lemma equiv_tail_call f args kw p :
  (forall w o, calls f args kw w o <-> evaluates p w o) ->
  equiv (invoke f args kw Return) p.
Proof. intros H w o. rewrite evaluates_tail_call. apply H. Qed.

End Budget.

(** ** Wrappers made by [decorated] *)

Ltac unfold_wrapper := unfold update_wrapper, wrapper_attrs in *.
Ltac unfold_decorated := unfold decorated in *.
Ltac unfold_pending := unfold pending, wrapper in *.
Ltac unfold_stacked := unfold stacked in *.
Ltac unfold_optional := unfold optional, optional2 in *.

Section Properties.
Context {U W : Type}.
Variable type_attr : pytype -> string -> option (value U).
Variable fn_attr : code U -> list (value U) -> string -> option (value U).
Variable body : U -> list (value U) -> list (value U) -> kwdict U -> prog U W.

Local Notation getattr := (getattr type_attr fn_attr).
Local Notation update_wrapper := (update_wrapper type_attr fn_attr).
Local Notation copied_attrs := (copied_attrs type_attr fn_attr).
Local Notation wrapper_attrs := (wrapper_attrs type_attr fn_attr).
Local Notation decorated := (decorated type_attr fn_attr).
Local Notation pending := (pending type_attr fn_attr).
Local Notation wrapper := (wrapper type_attr fn_attr).
Local Notation stacked := (stacked type_attr fn_attr).
Local Notation decorated_call := (decorated_call type_attr fn_attr).
Local Notation optional := (optional type_attr fn_attr).
Local Notation optional2 := (optional2 type_attr fn_attr).
Local Notation calls := (calls type_attr fn_attr body).
Local Notation evaluates := (evaluates type_attr fn_attr body).
Local Notation equiv := (equiv type_attr fn_attr body).

Implicit Types (f g t : value U) (args : list (value U)) (kw : kwdict U)
               (w : W) (o : result U * W) (a : string).

Lemma fold_assign_partial wrapped names attrs func args kw :
  fold_left (assign_from type_attr fn_attr wrapped) names
            (VPartial attrs func args kw) =
  VPartial (copied_attrs wrapped names attrs) func args kw.
Proof.
  revert attrs. induction names as [|a names IH]; intros attrs; simpl; auto.
  unfold assign_from at 2.
  destruct (getattr wrapped a); simpl; apply IH.
Qed.

Lemma update_wrapper_partial func args kw wrapped :
  update_wrapper (VPartial [] func args kw) wrapped =
  VPartial (wrapper_attrs wrapped) func args kw.
Proof.
  unfold_wrapper. rewrite fold_assign_partial. reflexivity.
Qed.

Lemma decorated_None f : decorated f VNone = Ok (pending f).
Proof.
  unfold_decorated. simpl. now rewrite update_wrapper_partial.
Qed.

Lemma decorated_target f g :
  callable f = true -> is_None g = false ->
  decorated f g = Ok (wrapper f g).
Proof.
  intros Hf Hg. unfold_decorated. unfold partial. rewrite Hg, Hf.
  now rewrite update_wrapper_partial.
Qed.

Lemma calls_decorated args kw w o :
  calls decorated_fn args kw w o <-> o = (decorated_call args kw, w).
Proof.
  unfold decorated_fn. rewrite calls_function. simpl. apply evaluates_lift.
Qed.

(** [decorated(f)] is a partial application of [decorated] itself: calling
    it with [g] is calling [decorated(f, g)]. *)
Lemma calls_pending f g w o :
  calls (pending f) [g] [] w o <-> o = (decorated f g, w).
Proof.
  unfold_pending. rewrite calls_partial. simpl. now rewrite calls_decorated.
Qed.

(** A wrapper [partial(f, g)] called with [args] calls [f(g, *args)]. *)
Lemma calls_wrapper attrs f g args kw w o :
  dict_wf kw = true ->
  calls (VPartial attrs f [g] []) args kw w o <-> calls f (g :: args) kw w o.
Proof.
  intros Hkw. rewrite calls_partial. simpl. now rewrite dict_update_empty.
Qed.

(** *** Copied attributes *)

Lemma copied_attrs_get wrapped names attrs a v :
  getattr wrapped a = Some v ->
  In a names \/ dict_get attrs a = Some v ->
  dict_get (copied_attrs wrapped names attrs) a = Some v.
Proof.
  intros Ha. revert attrs.
  induction names as [|n names IH]; intros attrs H; simpl.
  - now destruct H.
  - apply IH. destruct (string_dec n a) as [->|Hne].
    + right. rewrite Ha. apply dict_get_set_same.
    + destruct H as [[E|Hin]|Hd]; [contradiction|now left|right].
      destruct (getattr wrapped n); auto.
      rewrite dict_get_set_other; auto.
Qed.

Lemma wrapper_attrs_get wrapped a v :
  In a WRAPPER_ASSIGNMENTS ->
  dict_wf (instance_dict wrapped) = true ->
  getattr wrapped a = Some v ->
  dict_get (wrapper_attrs wrapped) a = Some v.
Proof.
  intros Hin Hwf Ha. unfold_wrapper.
  rewrite dict_get_set_other.
  2:{ simpl in Hin. intuition (subst; discriminate). }
  rewrite dict_get_update, dict_get_rev by assumption.
  destruct (dict_get (instance_dict wrapped) a) as [v'|] eqn:E.
  - destruct wrapped; simpl in E; try discriminate.
    simpl in Ha. rewrite E in Ha. exact Ha.
  - apply copied_attrs_get; auto.
Qed.

(** The wrapper shows the wrapped object's attributes. *)
Lemma getattr_wrapper wrapped func args kw a v :
  In a WRAPPER_ASSIGNMENTS ->
  dict_wf (instance_dict wrapped) = true ->
  getattr wrapped a = Some v ->
  getattr (VPartial (wrapper_attrs wrapped) func args kw) a = Some v.
Proof.
  intros Hin Hwf Ha. simpl. now rewrite (wrapper_attrs_get _ _ _ Hin Hwf Ha).
Qed.

(** *** The decorated [optional] and [optional2] *)

Lemma optional_pending : optional = pending optional_fn.
Proof. unfold_optional. now rewrite decorated_None. Qed.

Lemma optional2_pending : optional2 = pending optional2_fn.
Proof. unfold_optional. now rewrite decorated_None. Qed.

Lemma calls_optional f w o :
  calls optional [f] [] w o <-> o = (decorated optional_fn f, w).
Proof. rewrite optional_pending. apply calls_pending. Qed.

Lemma calls_optional2 f w o :
  calls optional2 [f] [] w o <-> o = (decorated optional2_fn f, w).
Proof. rewrite optional2_pending. apply calls_pending. Qed.

(** *** What [pipe] and [compose] return *)

Lemma calls_pipe decorators w o :
  calls pipe_fn decorators [] w o <->
  o = (Ok (pending (pipe_closure decorators)), w).
Proof.
  unfold pipe_fn. rewrite calls_function. simpl. unfold pipe.
  rewrite evaluates_tail_call, calls_decorated. simpl.
  now rewrite decorated_None.
Qed.

Lemma calls_compose decorators w o :
  calls compose_fn decorators [] w o <->
  o = (Ok (pending (pipe_closure (rev decorators))), w).
Proof.
  unfold compose_fn. rewrite calls_function. simpl. unfold compose.
  rewrite evaluates_tail_call. apply calls_pipe.
Qed.

(** Applying a pending decorator to a target. *)
Lemma apply_pending f t w :
  callable f = true -> is_None t = false ->
  calls (pending f) [t] [] w (Ok (wrapper f t), w).
Proof.
  intros Hf Ht. apply calls_pending. now rewrite decorated_target.
Qed.

Lemma callable_not_None t : callable t = true -> is_None t = false.
Proof. now destruct t. Qed.

Lemma callable_not_undefined t : callable t = true -> is_undefined t = false.
Proof. now destruct t. Qed.

Lemma apply_pipe decorators t w :
  is_None t = false ->
  evaluates (invoke pipe_fn decorators [] (fun p => invoke p [t] [] Return)) w
            (Ok (wrapper (pipe_closure decorators) t), w).
Proof.
  intros Ht.
  eapply evaluates_invoke_ok; [now apply calls_pipe|].
  rewrite evaluates_tail_call. now apply apply_pending.
Qed.

Lemma apply_compose decorators t w :
  is_None t = false ->
  evaluates (invoke compose_fn decorators [] (fun p => invoke p [t] [] Return)) w
            (Ok (wrapper (pipe_closure (rev decorators)) t), w).
Proof.
  intros Ht.
  eapply evaluates_invoke_ok; [now apply calls_compose|].
  rewrite evaluates_tail_call. now apply apply_pending.
Qed.

(** The wrapper [pipe] makes calls the target first and hands what the
    target returned, not the target, to the decorators. *)
Lemma calls_pipe_wrapper decorators t args kw w o :
  dict_wf kw = true ->
  calls (wrapper (pipe_closure decorators) t) args kw w o <->
  evaluates (invoke t args kw (reduce_apply decorators)) w o.
Proof.
  intros Hkw. unfold wrapper. rewrite calls_wrapper by assumption.
  unfold pipe_closure. now rewrite calls_function.
Qed.

(** *** The adapted factories *)

Lemma calls_adapted f args kw w o :
  dict_wf kw = true ->
  calls (wrapper optional_fn f) args kw w o <->
  evaluates (optional_call (f :: args) kw) w o.
Proof.
  intros Hkw. unfold wrapper. rewrite calls_wrapper by assumption.
  unfold optional_fn. now rewrite calls_function.
Qed.

Lemma calls_adapted2 f args kw w o :
  dict_wf kw = true ->
  calls (wrapper optional2_fn f) args kw w o <->
  evaluates (optional2_call (f :: args) kw) w o.
Proof.
  intros Hkw. unfold wrapper. rewrite calls_wrapper by assumption.
  unfold optional2_fn. now rewrite calls_function.
Qed.

Lemma adapt_optional f w :
  is_None f = false -> calls optional [f] [] w (Ok (wrapper optional_fn f), w).
Proof. intros Hf. apply calls_optional. now rewrite decorated_target. Qed.

Lemma adapt_optional2 f w :
  is_None f = false -> calls optional2 [f] [] w (Ok (wrapper optional2_fn f), w).
Proof. intros Hf. apply calls_optional2. now rewrite decorated_target. Qed.

(** The dispatch of an adapted [optional2] factory on its arguments. *)
Lemma optional2_no_argument f kw w o :
  dict_wf kw = true ->
  calls (wrapper optional2_fn f) [] kw w o <-> calls f [] kw w o.
Proof.
  intros Hkw. rewrite calls_adapted2 by assumption. simpl.
  apply evaluates_tail_call.
Qed.

Lemma optional2_sentinel f rest kw w o :
  dict_wf kw = true ->
  calls (wrapper optional2_fn f) (__undefined :: rest) kw w o <->
  calls f rest kw w o.
Proof.
  intros Hkw. rewrite calls_adapted2 by assumption. simpl.
  apply evaluates_tail_call.
Qed.

Lemma optional2_target f g rest kw w o :
  dict_wf kw = true -> callable g = true ->
  calls (wrapper optional2_fn f) (g :: rest) kw w o <->
  evaluates (invoke f rest kw (fun wr => invoke wr [g] [] Return)) w o.
Proof.
  intros Hkw Hg. rewrite calls_adapted2 by assumption. simpl.
  unfold optional2_def. rewrite (callable_not_undefined _ Hg), Hg.
  reflexivity.
Qed.

Lemma optional2_configuration f g rest kw w o :
  dict_wf kw = true -> is_undefined g = false -> callable g = false ->
  calls (wrapper optional2_fn f) (g :: rest) kw w o <->
  calls f (g :: rest) kw w o.
Proof.
  intros Hkw Hu Hg. rewrite calls_adapted2 by assumption. simpl.
  unfold optional2_def. rewrite Hu, Hg. apply evaluates_tail_call.
Qed.

(** * Properties of the module *)

(** C10. Passing [None] as the target of [decorated] means that no target
    was supplied: [decorated(f, None)] and [decorated(f)(None)] return the
    pending decorator that [decorated(f)] returns, in an unchanged world,
    and that object is not a wrapper around [None]. *)
Theorem decorated_None_means_no_target f w :
  calls decorated_fn [f] [] w (Ok (pending f), w) /\
  calls decorated_fn [f; VNone] [] w (Ok (pending f), w) /\
  calls (pending f) [VNone] [] w (Ok (pending f), w) /\
  (forall attrs kw, pending f <> VPartial attrs f [VNone] kw).
Proof.
  repeat split.
  - apply calls_decorated. simpl. now rewrite decorated_None.
  - apply calls_decorated. simpl. now rewrite decorated_None.
  - apply calls_pending. now rewrite decorated_None.
  - intros attrs kw H. unfold_pending. injection H as _ Hf Hargs _.
    rewrite <- Hf in Hargs. discriminate.
Qed.

(** C3, as amended. [decorated(f)] returns a partial application of
    [decorated] that still expects a target: calling it with [g] is calling
    [decorated(f, g)].  Applied to a target [t] it returns, without calling
    [f], the partial application of [f] to [t]; calling that with further
    arguments calls [f] with [t] in front of them. *)
Theorem decorated_binds_target f t args kw w o
  (Hf : callable f = true) (Ht : is_None t = false)
  (Hkw : dict_wf kw = true) :
  calls decorated_fn [f] [] w (Ok (pending f), w) /\
  (forall g o', calls (pending f) [g] [] w o' <->
                calls decorated_fn [f; g] [] w o') /\
  evaluates (invoke decorated_fn [f] [] (fun p => invoke p [t] [] Return)) w
            (Ok (wrapper f t), w) /\
  (calls (wrapper f t) args kw w o <-> calls f (t :: args) kw w o).
Proof.
  assert (Hp : calls decorated_fn [f] [] w (Ok (pending f), w)).
  { apply calls_decorated. simpl. now rewrite decorated_None. }
  repeat apply conj; try assumption.
  - intros g o'. now rewrite calls_pending, calls_decorated.
  - eapply evaluates_invoke_ok; [exact Hp|].
    apply evaluates_tail_call. now apply apply_pending.
  - intros H. now apply calls_wrapper in H.
  - intros H. now apply calls_wrapper.
Qed.

(** C9. Every wrapper the module returns shows the attributes of its target
    that [update_wrapper] assigns ([__name__] and [__doc__] among them):
    [decorated(t)], [decorated(f)(t)], [pipe(...)(t)], [compose(...)(t)],
    [optional(t)] and [optional2(t)] return an object whose attribute [a]
    is the target's; and so do [optional(fac)(t)] and [optional2(fac)(t)]
    for a factory [fac] that returns a decorator made by [decorated]. *)
Theorem wrapper_keeps_metadata a v t f decorators fac h w w'
  (Ha : In a WRAPPER_ASSIGNMENTS) (Hv : getattr t a = Some v)
  (Ht : callable t = true) (Hf : callable f = true)
  (Hd : dict_wf (instance_dict t) = true)
  (Hfac : calls fac [] [] w (Ok (pending h), w')) (Hh : callable h = true) :
  (exists r, calls decorated_fn [t] [] w (Ok r, w) /\ getattr r a = Some v) /\
  (exists r, evaluates (invoke decorated_fn [f] []
                          (fun p => invoke p [t] [] Return)) w (Ok r, w) /\
             getattr r a = Some v) /\
  (exists r, evaluates (invoke pipe_fn decorators []
                          (fun p => invoke p [t] [] Return)) w (Ok r, w) /\
             getattr r a = Some v) /\
  (exists r, evaluates (invoke compose_fn decorators []
                          (fun p => invoke p [t] [] Return)) w (Ok r, w) /\
             getattr r a = Some v) /\
  (exists r, calls optional [t] [] w (Ok r, w) /\ getattr r a = Some v) /\
  (exists r, calls optional2 [t] [] w (Ok r, w) /\ getattr r a = Some v) /\
  (exists r, evaluates (invoke optional [fac] []
                          (fun F => invoke F [t] [] Return)) w (Ok r, w') /\
             getattr r a = Some v) /\
  (exists r, evaluates (invoke optional2 [fac] []
                          (fun F => invoke F [t] [] Return)) w (Ok r, w') /\
             getattr r a = Some v).
Proof.
  pose proof (callable_not_None _ Ht) as Hn.
  pose proof (callable_not_None _
                (calls_ok_callable _ _ _ _ _ _ _ _ _ Hfac)) as Hc.
  assert (Happly : evaluates (invoke fac [] [] (fun wr => invoke wr [t] [] Return))
                             w (Ok (wrapper h t), w')).
  { eapply evaluates_invoke_ok; [exact Hfac|].
    apply evaluates_tail_call. now apply apply_pending. }
  repeat apply conj.
  - exists (pending t). split.
    + apply calls_decorated. simpl. now rewrite decorated_None.
    + now apply getattr_wrapper.
  - exists (wrapper f t). split.
    + eapply evaluates_invoke_ok.
      * apply calls_decorated. simpl. now rewrite decorated_None.
      * apply evaluates_tail_call. now apply apply_pending.
    + now apply getattr_wrapper.
  - exists (wrapper (pipe_closure decorators) t). split.
    + now apply apply_pipe.
    + now apply getattr_wrapper.
  - exists (wrapper (pipe_closure (rev decorators)) t). split.
    + now apply apply_compose.
    + now apply getattr_wrapper.
  - exists (wrapper optional_fn t). split.
    + now apply adapt_optional.
    + now apply getattr_wrapper.
  - exists (wrapper optional2_fn t). split.
    + now apply adapt_optional2.
    + now apply getattr_wrapper.
  - exists (wrapper h t). split.
    + eapply evaluates_invoke_ok; [now apply adapt_optional|].
      apply evaluates_tail_call. apply calls_adapted; [reflexivity|].
      simpl. unfold optional_def.
      now rewrite (callable_not_undefined _ Ht).
    + now apply getattr_wrapper.
  - exists (wrapper h t). split.
    + eapply evaluates_invoke_ok; [now apply adapt_optional2|].
      apply evaluates_tail_call. now apply optional2_target.
    + now apply getattr_wrapper.
Qed.

(** C4, as amended. Applied to a target [t], the empty [pipe()] and the
    empty [compose()] return a new wrapper around [t], not [t] itself; every
    call of that wrapper ends exactly as the same call of [t]: same result
    or exception, same world. *)
Theorem empty_composition_behaves_as_target t args kw w o
  (Ht : callable t = true) (Hkw : dict_wf kw = true) :
  evaluates (invoke pipe_fn [] [] (fun p => invoke p [t] [] Return)) w
            (Ok (wrapper (pipe_closure []) t), w) /\
  evaluates (invoke compose_fn [] [] (fun p => invoke p [t] [] Return)) w
            (Ok (wrapper (pipe_closure []) t), w) /\
  (calls (wrapper (pipe_closure []) t) args kw w o <-> calls t args kw w o).
Proof.
  pose proof (callable_not_None _ Ht) as Hn.
  repeat apply conj.
  - now apply apply_pipe.
  - now apply (apply_compose []).
  - intros H. apply calls_pipe_wrapper in H; auto.
    now apply evaluates_tail_call in H.
  - intros H. apply calls_pipe_wrapper; auto.
    now apply (evaluates_tail_call type_attr fn_attr body).
Qed.

(** C6. A factory adapted by [optional] and applied bare to a target [t]
    is indistinguishable from the adapted factory called with no argument
    and the wrapper it returns then applied to [t]. *)
Theorem optional_bare_is_call_then_apply f t (Ht : callable t = true) :
  equiv (invoke optional [f] [] (fun F => invoke F [t] [] Return))
        (invoke optional [f] []
           (fun F => invoke F [] [] (fun wr => invoke wr [t] [] Return))).
Proof.
  pose proof (callable_not_None _ Ht) as Hn.
  pose proof (callable_not_undefined _ Ht) as Hu.
  destruct (is_None f) eqn:Hf.
  - (* [optional(None)] is [optional] again *)
    destruct f; try discriminate.
    assert (Hp : forall w, calls optional [VNone] [] w (Ok optional, w)).
    { intros w. apply calls_optional. rewrite decorated_None.
      now rewrite optional_pending. }
    eapply equiv_trans; [apply (equiv_invoke_pure _ _ _ _ _ _ _ _ Hp)|].
    apply equiv_sym.
    eapply equiv_trans; [apply (equiv_invoke_pure _ _ _ _ _ _ _ _ Hp)|].
    apply (equiv_invoke_pure type_attr fn_attr body optional [] []
             (fun wr => invoke wr [t] [] Return) optional).
    intros w. rewrite optional_pending. unfold pending at 1.
    rewrite calls_partial. simpl. apply calls_decorated. simpl.
    now rewrite decorated_None.
  - assert (Hp : forall w, calls optional [f] [] w (Ok (wrapper optional_fn f), w)).
    { intros w. now apply adapt_optional. }
    eapply equiv_trans; [apply (equiv_invoke_pure _ _ _ _ _ _ _ _ Hp)|].
    apply equiv_sym.
    eapply equiv_trans; [apply (equiv_invoke_pure _ _ _ _ _ _ _ _ Hp)|].
    apply equiv_sym.
    eapply equiv_trans.
    { apply equiv_tail_call. intros w o. apply calls_adapted. reflexivity. }
    simpl. unfold optional_def. rewrite Hu.
    unfold invoke at 1 3. apply equiv_callee. intros w o.
    rewrite calls_adapted by reflexivity. simpl.
    symmetry. apply evaluates_tail_call.
Qed.

(** C2. The three-way dispatch of a factory [f] adapted by [optional2].
    With no argument, or with the sentinel, [f] is called with the given
    configuration and what it returns is returned.  With one invokable
    argument [g], [f] is called with the given configuration and the wrapper
    it returns is applied to [g].  With a first argument [g] that is
    supplied and not invokable, [f] is called with [g] in front of the other
    configuration and what it returns is returned. *)
Theorem optional2_dispatch f kw w o
  (Hf : callable f = true) (Hkw : dict_wf kw = true) :
  calls optional2 [f] [] w (Ok (wrapper optional2_fn f), w) /\
  (calls (wrapper optional2_fn f) [] kw w o <-> calls f [] kw w o) /\
  (forall rest,
     calls (wrapper optional2_fn f) (__undefined :: rest) kw w o <->
     calls f rest kw w o) /\
  (forall g, callable g = true ->
     calls (wrapper optional2_fn f) [g] kw w o <->
     evaluates (invoke f [] kw (fun wr => invoke wr [g] [] Return)) w o) /\
  (forall g rest, is_undefined g = false -> callable g = false ->
     calls (wrapper optional2_fn f) (g :: rest) kw w o <->
     calls f (g :: rest) kw w o).
Proof.
  refine (conj _ (conj _ (conj _ (conj _ _)))).
  - apply adapt_optional2. now apply callable_not_None.
  - now apply optional2_no_argument.
  - intros rest. now apply optional2_sentinel.
  - intros g Hg. now apply optional2_target.
  - intros g rest Hu Hg. now apply optional2_configuration.
Qed.

(** C7. An invokable first argument [v] of a factory adapted by
    [optional2] is always taken as the target, whatever it was meant to be
    and whatever else is passed: the factory is called with the remaining
    configuration and the wrapper it returns is applied to [v]; [v] never
    reaches the factory as a configuration value. *)
Theorem optional2_invokable_is_target f v rest kw w o
  (Hf : callable f = true) (Hv : callable v = true)
  (Hkw : dict_wf kw = true) :
  calls optional2 [f] [] w (Ok (wrapper optional2_fn f), w) /\
  (calls (wrapper optional2_fn f) (v :: rest) kw w o <->
   evaluates (invoke f rest kw (fun wr => invoke wr [v] [] Return)) w o).
Proof.
  split.
  - apply adapt_optional2. now apply callable_not_None.
  - now apply optional2_target.
Qed.

(** C8. When the factory raises on being called with no argument (its
    first parameter has no default), so does the factory adapted by
    [optional2] when called with no argument: the same exception, in the
    same world. *)
Theorem optional2_surfaces_missing_argument f e w w'
  (Hf : callable f = true) (Hraise : calls f [] [] w (Err e, w')) :
  calls optional2 [f] [] w (Ok (wrapper optional2_fn f), w) /\
  calls (wrapper optional2_fn f) [] [] w (Err e, w').
Proof.
  split.
  - apply adapt_optional2. now apply callable_not_None.
  - now apply optional2_no_argument.
Qed.

(** * Further properties of the module *)

(** *** Helper facts on the reduction of [pipe] *)

Lemma dict_update_nonempty (d other : kwdict U) :
  d <> [] -> dict_update d other <> [].
Proof.
  unfold dict_update. revert d.
  induction other as [|[k v] other IH]; intros d Hd; simpl; auto.
  apply IH. destruct d as [|[k' v'] d]; [contradiction|].
  simpl. destruct (String.eqb k k'); discriminate.
Qed.

Lemma dict_update_cons_nonempty (kv : string * value U) (kw : kwdict U) :
  dict_update [] (kv :: kw) <> [].
Proof.
  unfold dict_update. simpl. apply dict_update_nonempty. discriminate.
Qed.

(** The decorators in front run first; the ones behind get what those
    returned. *)
Lemma evaluates_reduce_app ds1 ds2 acc w o :
  evaluates (reduce_apply (ds1 ++ ds2) acc) w o <->
  (exists v w', evaluates (reduce_apply ds1 acc) w (Ok v, w') /\
                evaluates (reduce_apply ds2 v) w' o) \/
  (exists e, evaluates (reduce_apply ds1 acc) w (Err e, snd o) /\
             fst o = Err e).
Proof.
  revert acc w. induction ds1 as [|d ds1 IH]; intros acc w; simpl.
  - split.
    + intros H. left. exists acc, w. split; auto. now apply evaluates_Return.
    + intros [(v & w' & Hr & H)|(e & Hr & _)].
      * apply evaluates_Return in Hr. now injection Hr as -> ->.
      * apply evaluates_Return in Hr. discriminate.
  - rewrite !evaluates_invoke. split.
    + intros [(v & w' & Hc & H)|(e & Hc & He)].
      * apply IH in H as [(v' & w'' & H1 & H2)|(e & H1 & He)].
        -- left. exists v', w''. split; auto.
           apply evaluates_invoke. left. now exists v, w'.
        -- right. exists e. split; auto.
           apply evaluates_invoke. left. now exists v, w'.
      * right. exists e. split; auto.
        apply evaluates_invoke. right. now exists e.
    + intros [(v & w' & H1 & H2)|(e & H1 & He)].
      * apply evaluates_invoke in H1 as [(v1 & w1 & Hc & H1)|(e & Hc & He)].
        -- left. exists v1, w1. split; auto. apply IH. left. now exists v, w'.
        -- discriminate.
      * apply evaluates_invoke in H1 as [(v1 & w1 & Hc & H1)|(e' & Hc & He')].
        -- left. exists v1, w1. split; auto. apply IH. right. now exists e.
        -- right. exists e'. simpl in *. split; congruence.
Qed.

(** ** pipe and compose *)

(** X1. [pipe(...)] and [compose(...)] check nothing and call nothing:
    whatever the decorators are (callable or not), applying the composition
    to a target that is not [None] returns a wrapper and leaves the world as
    it was. *)
Theorem pipe_calls_nothing decorators t w (Ht : is_None t = false) :
  evaluates (invoke pipe_fn decorators [] (fun p => invoke p [t] [] Return)) w
            (Ok (wrapper (pipe_closure decorators) t), w) /\
  evaluates (invoke compose_fn decorators [] (fun p => invoke p [t] [] Return)) w
            (Ok (wrapper (pipe_closure (rev decorators)) t), w).
Proof. split; [now apply apply_pipe | now apply apply_compose]. Qed.

(** X2. The wrapper [pipe] makes calls the target first, with the
    arguments of the call.  When the target raises, the wrapper raises the
    same exception from the same world and no decorator is called; when the
    target returns [r], the call ends as the decorators applied in turn to
    [r]. *)
Theorem pipe_calls_target_first decorators t args kw w r e w' o
  (Hkw : dict_wf kw = true) :
  (calls t args kw w (Err e, w') ->
   calls (wrapper (pipe_closure decorators) t) args kw w (Err e, w')) /\
  (calls t args kw w (Ok r, w') ->
   (calls (wrapper (pipe_closure decorators) t) args kw w o <->
    evaluates (reduce_apply decorators r) w' o)).
Proof.
  split; intros Hc.
  - apply calls_pipe_wrapper; auto.
    apply evaluates_invoke. right. now exists e.
  - rewrite calls_pipe_wrapper by assumption.
    now apply evaluates_invoke_ok.
Qed.


(** X4. Decorators are applied from left to right: a call of the wrapper
    of [pipe] over [ds1 ++ ds2] ends as the decorators [ds2] applied in turn
    to what the same call of the wrapper of [pipe] over [ds1] returns, and
    raises what that call raises. *)
Theorem pipe_extends_left_to_right ds1 ds2 t args kw w r e w' o
  (Hkw : dict_wf kw = true) :
  (calls (wrapper (pipe_closure ds1) t) args kw w (Err e, w') ->
   calls (wrapper (pipe_closure (ds1 ++ ds2)) t) args kw w (Err e, w')) /\
  (calls (wrapper (pipe_closure ds1) t) args kw w (Ok r, w') ->
   (calls (wrapper (pipe_closure (ds1 ++ ds2)) t) args kw w o <->
    evaluates (reduce_apply ds2 r) w' o)).
Proof.
  assert (Hsplit : forall o',
    calls (wrapper (pipe_closure (ds1 ++ ds2)) t) args kw w o' <->
    (exists v w1, calls (wrapper (pipe_closure ds1) t) args kw w (Ok v, w1) /\
                  evaluates (reduce_apply ds2 v) w1 o') \/
    (exists e', calls (wrapper (pipe_closure ds1) t) args kw w (Err e', snd o') /\
                fst o' = Err e')).
  { intros o'. rewrite calls_pipe_wrapper by assumption.
    rewrite evaluates_invoke. split.
    - intros [(v & w1 & Hc & H)|(e' & Hc & He)].
      + apply evaluates_reduce_app in H as [(v' & w2 & H1 & H2)|(e' & H1 & He)].
        * left. exists v', w2. split; auto.
          apply calls_pipe_wrapper; auto.
          apply evaluates_invoke. left. now exists v, w1.
        * right. exists e'. split; auto.
          apply calls_pipe_wrapper; auto.
          apply evaluates_invoke. left. now exists v, w1.
      + right. exists e'. split; auto.
        apply calls_pipe_wrapper; auto.
        apply evaluates_invoke. right. now exists e'.
    - intros [(v & w1 & H1 & H2)|(e' & H1 & He)].
      + apply calls_pipe_wrapper in H1; auto.
        apply evaluates_invoke in H1 as [(v1 & w2 & Hc & H1)|(e' & Hc & He)].
        * left. exists v1, w2. split; auto.
          apply evaluates_reduce_app. left. now exists v, w1.
        * discriminate.
      + apply calls_pipe_wrapper in H1; auto.
        apply evaluates_invoke in H1 as [(v1 & w2 & Hc & H1)|(e'' & Hc & He'')].
        * left. exists v1, w2. split; auto.
          apply evaluates_reduce_app. right. now exists e'.
        * right. exists e''. simpl in *. split; congruence. }
  split; intros Hc.
  - apply Hsplit. right. now exists e.
  - rewrite Hsplit. split.
    + intros [(v & w1 & H1 & H2)|(e' & H1 & _)].
      * pose proof (calls_det _ _ _ _ _ _ _ _ _ Hc H1) as E.
        now injection E as -> ->.
      * pose proof (calls_det _ _ _ _ _ _ _ _ _ Hc H1). discriminate.
    + intros H. left. now exists r, w'.
Qed.


(** ** decorated *)

(** X6. [decorated] looks at [f] only when a target arrives: for an [f]
    that is not callable, [decorated(f)] still returns the pending
    decorator, and applying that to a target raises the [TypeError] of
    [partial], as [decorated(f, t)] does. *)
Theorem decorated_checks_definition_late f t w
  (Hf : callable f = false) (Ht : is_None t = false) :
  calls decorated_fn [f] [] w (Ok (pending f), w) /\
  calls (pending f) [t] [] w
        (Err (TypeError "the first argument must be callable"), w) /\
  calls decorated_fn [f; t] [] w
        (Err (TypeError "the first argument must be callable"), w).
Proof.
  assert (E : decorated f t =
              Err (TypeError "the first argument must be callable")).
  { unfold_decorated. unfold partial. now rewrite Ht, Hf. }
  repeat apply conj.
  - apply calls_decorated. simpl. now rewrite decorated_None.
  - apply calls_pending. now rewrite E.
  - apply calls_decorated. simpl. now rewrite E.
Qed.

(** X7. The call shapes of a pending decorator [decorated(f)]: called
    with no argument it returns the pending decorator again; called with a
    keyword argument, or with more than one positional argument, it raises
    [TypeError] and builds nothing. *)
Theorem pending_call_shapes f (x y : value U) (rest : list (value U))
  (kv : string * value U) kw args w :
  calls (pending f) [] [] w (Ok (pending f), w) /\
  (exists msg, calls (pending f) (x :: y :: rest) [] w
                     (Err (TypeError msg), w)) /\
  (exists msg, calls (pending f) args (kv :: kw) w (Err (TypeError msg), w)).
Proof.
  repeat apply conj.
  - unfold pending at 1. apply calls_partial, calls_decorated. simpl.
    now rewrite decorated_None.
  - eexists. unfold pending. apply calls_partial, calls_decorated.
    reflexivity.
  - pose proof (dict_update_cons_nonempty kv kw) as Hne.
    eexists. unfold pending. apply calls_partial, calls_decorated.
    unfold decorated_call.
    destruct (dict_update [] (kv :: kw)); [contradiction|reflexivity].
Qed.

(** X8. What [decorated] returns records what it wraps: the attribute
    [__wrapped__] of the result is the target, or [f] when there is no
    target. *)
Theorem decorated_records_wrapped f g r (Hr : decorated f g = Ok r) :
  getattr r "__wrapped__" = Some (if is_None g then f else g).
Proof.
  assert (Hget : forall x func args kw,
            getattr (VPartial (wrapper_attrs x) func args kw) "__wrapped__"
            = Some x).
  { intros x func args kw. simpl. unfold_wrapper.
    now rewrite dict_get_set_same. }
  destruct (is_None g) eqn:Hg.
  - destruct g; try discriminate. rewrite decorated_None in Hr.
    injection Hr as <-. apply Hget.
  - destruct (callable f) eqn:Hf.
    + rewrite decorated_target in Hr by assumption.
      injection Hr as <-. apply Hget.
    + unfold_decorated. unfold partial in Hr. rewrite Hg, Hf in Hr.
      discriminate.
Qed.

(** X9. [None] is never taken as a target by the module's decorators:
    [pipe(...)(None)] and [compose(...)(None)] return the pending
    composition, [optional(None)] returns [optional] and [optional2(None)]
    returns [optional2]. *)
Theorem None_is_not_decorated decorators w :
  evaluates (invoke pipe_fn decorators [] (fun p => invoke p [VNone] [] Return))
            w (Ok (pending (pipe_closure decorators)), w) /\
  evaluates (invoke compose_fn decorators []
               (fun p => invoke p [VNone] [] Return))
            w (Ok (pending (pipe_closure (rev decorators))), w) /\
  calls optional [VNone] [] w (Ok optional, w) /\
  calls optional2 [VNone] [] w (Ok optional2, w).
Proof.
  repeat apply conj.
  - eapply evaluates_invoke_ok; [now apply calls_pipe|].
    apply evaluates_tail_call, calls_pending. now rewrite decorated_None.
  - eapply evaluates_invoke_ok; [now apply calls_compose|].
    apply evaluates_tail_call, calls_pending. now rewrite decorated_None.
  - apply calls_optional. rewrite decorated_None. now rewrite optional_pending.
  - apply calls_optional2. rewrite decorated_None.
    now rewrite optional2_pending.
Qed.

(** ** optional *)

(** X10. The dispatch of a factory [f] adapted by [optional]: with no
    positional argument, or with the sentinel, [f] is called with the
    keywords and what it returns is returned; with any other positional
    argument [g], invokable or not, [f] is called with the keywords and the
    wrapper it returns is applied to [g]. *)
Theorem optional_dispatch f g kw w o
  (Hf : is_None f = false) (Hkw : dict_wf kw = true)
  (Hg : is_undefined g = false) :
  calls optional [f] [] w (Ok (wrapper optional_fn f), w) /\
  (calls (wrapper optional_fn f) [] kw w o <-> calls f [] kw w o) /\
  (calls (wrapper optional_fn f) [__undefined] kw w o <-> calls f [] kw w o) /\
  (calls (wrapper optional_fn f) [g] kw w o <->
   evaluates (invoke f [] kw (fun wr => invoke wr [g] [] Return)) w o).
Proof.
  refine (conj _ (conj _ (conj _ _))).
  - now apply adapt_optional.
  - rewrite calls_adapted by assumption. simpl. apply evaluates_tail_call.
  - rewrite calls_adapted by assumption. simpl. apply evaluates_tail_call.
  - rewrite calls_adapted by assumption. simpl. unfold optional_def.
    rewrite Hg. reflexivity.
Qed.

(** X11. A factory adapted by [optional] takes its configuration by
    keyword only: a call with a second positional argument raises
    [TypeError] without calling the factory. *)
Theorem optional_rejects_positional_configuration f (x y : value U)
  (rest : list (value U)) kw w (Hkw : dict_wf kw = true) :
  exists msg,
    calls (wrapper optional_fn f) (x :: y :: rest) kw w (Err (TypeError msg), w).
Proof.
  eexists. apply calls_adapted; auto. simpl. now apply evaluates_Throw.
Qed.

(** X12. Adapting twice changes nothing: a factory adapted by [optional]
    and adapted again answers every call as the factory adapted once. *)
Theorem optional_is_idempotent f args kw w o (Hkw : dict_wf kw = true) :
  calls (wrapper optional_fn (wrapper optional_fn f)) args kw w o <->
  calls (wrapper optional_fn f) args kw w o.
Proof.
  assert (H0 : forall w o, calls (wrapper optional_fn f) [] kw w o <->
                           calls f [] kw w o).
  { intros w0 o0. rewrite calls_adapted by assumption. simpl.
    apply evaluates_tail_call. }
  rewrite (calls_adapted (wrapper optional_fn f)) by assumption.
  rewrite (calls_adapted f) by assumption.
  destruct args as [|g [|b rest]];
    unfold optional_call, optional_def, __undefined; cbn [is_undefined].
  - rewrite !evaluates_tail_call. apply H0.
  - destruct (is_undefined g).
    + rewrite !evaluates_tail_call. apply H0.
    + unfold invoke at 1 3. apply equiv_callee. exact H0.
  - reflexivity.
Qed.

(** ** optional2 *)

(** X13. A factory adapted by [optional2] and applied bare to an
    invokable target [t] is indistinguishable from the adapted factory
    called with no argument and the wrapper it returns then applied to
    [t]. *)
Theorem optional2_bare_is_call_then_apply f t (Ht : callable t = true) :
  equiv (invoke optional2 [f] [] (fun G => invoke G [t] [] Return))
        (invoke optional2 [f] []
           (fun G => invoke G [] [] (fun wr => invoke wr [t] [] Return))).
Proof.
  pose proof (callable_not_None _ Ht) as Hn.
  destruct (is_None f) eqn:Hf.
  - destruct f; try discriminate.
    assert (Hp : forall w, calls optional2 [VNone] [] w (Ok optional2, w)).
    { intros w. apply calls_optional2. rewrite decorated_None.
      now rewrite optional2_pending. }
    eapply equiv_trans; [apply (equiv_invoke_pure _ _ _ _ _ _ _ _ Hp)|].
    apply equiv_sym.
    eapply equiv_trans; [apply (equiv_invoke_pure _ _ _ _ _ _ _ _ Hp)|].
    apply (equiv_invoke_pure type_attr fn_attr body optional2 [] []
             (fun wr => invoke wr [t] [] Return) optional2).
    intros w. rewrite optional2_pending. unfold pending at 1.
    rewrite calls_partial. simpl. apply calls_decorated. simpl.
    now rewrite decorated_None.
  - assert (Hp : forall w,
              calls optional2 [f] [] w (Ok (wrapper optional2_fn f), w)).
    { intros w. now apply adapt_optional2. }
    eapply equiv_trans; [apply (equiv_invoke_pure _ _ _ _ _ _ _ _ Hp)|].
    apply equiv_sym.
    eapply equiv_trans; [apply (equiv_invoke_pure _ _ _ _ _ _ _ _ Hp)|].
    apply equiv_sym.
    eapply equiv_trans.
    { apply equiv_tail_call. intros w o.
      apply optional2_target; [reflexivity | exact Ht]. }
    unfold invoke at 1 3. apply equiv_callee. intros w o.
    symmetry. now apply optional2_no_argument.
Qed.

(** X14. On the calls [optional] is made for, [optional2] does the same:
    with keywords only, and with one invokable argument and keywords, a
    factory adapted by [optional2] ends as the same factory adapted by
    [optional]. *)
Theorem optional2_extends_optional f g kw w o
  (Hkw : dict_wf kw = true) (Hg : callable g = true) :
  (calls (wrapper optional2_fn f) [] kw w o <->
   calls (wrapper optional_fn f) [] kw w o) /\
  (calls (wrapper optional2_fn f) [g] kw w o <->
   calls (wrapper optional_fn f) [g] kw w o).
Proof.
  split.
  - rewrite optional2_no_argument by assumption.
    rewrite calls_adapted by assumption. simpl.
    symmetry. apply evaluates_tail_call.
  - rewrite optional2_target by assumption.
    rewrite calls_adapted by assumption. simpl. unfold optional_def.
    now rewrite (callable_not_undefined _ Hg).
Qed.

(** ** Stacked wrappers *)

Lemma dict_wf_copied wrapped names (attrs : dict (value U)) :
  dict_wf attrs = true -> dict_wf (copied_attrs wrapped names attrs) = true.
Proof.
  revert attrs. induction names as [|n names IH]; intros attrs H; simpl; auto.
  apply IH. destruct (getattr wrapped n); auto. now apply dict_wf_set.
Qed.

(** The [__dict__] of a wrapper is a dictionary. *)
Lemma dict_wf_wrapper_attrs wrapped : dict_wf (wrapper_attrs wrapped) = true.
Proof.
  unfold_wrapper. apply dict_wf_set, dict_wf_update.
  now apply dict_wf_copied.
Qed.

Lemma getattr_stacked a v t fs :
  In a WRAPPER_ASSIGNMENTS -> getattr t a = Some v ->
  dict_wf (instance_dict t) = true ->
  getattr (stacked fs t) a = Some v.
Proof.
  intros Ha Hv Hd.
  assert (H : getattr (stacked fs t) a = Some v /\
              dict_wf (instance_dict (stacked fs t)) = true).
  { induction fs as [|f fs [IHv IHd]]; [now split|].
    change (stacked (f :: fs) t) with (wrapper f (stacked fs t)).
    unfold wrapper. split.
    - now apply getattr_wrapper.
    - apply dict_wf_wrapper_attrs. }
  apply H.
Qed.

Lemma reduce_pending fs t w :
  forallb callable fs = true -> is_None t = false ->
  evaluates (reduce_apply (map pending fs) t) w (Ok (stacked (rev fs) t), w).
Proof.
  revert t. induction fs as [|f fs IH]; intros t Hfs Ht; simpl.
  - now apply evaluates_Return.
  - simpl in Hfs. apply andb_true_iff in Hfs as [Hf Hfs].
    eapply evaluates_invoke_ok; [now apply apply_pending|].
    unfold_stacked. rewrite fold_right_app. simpl.
    now apply IH.
Qed.

(** X15. Metadata survives stacking: applying decorators made by
    [decorated] one after the other to a target, as the reduction in [pipe]
    applies its decorators, puts one wrapper around the other without
    touching the world, and the outermost wrapper still shows every
    attribute of the target that [update_wrapper] assigns. *)
Theorem stacked_wrappers_keep_metadata a v t fs w
  (Ha : In a WRAPPER_ASSIGNMENTS) (Hv : getattr t a = Some v)
  (Hd : dict_wf (instance_dict t) = true)
  (Hfs : forallb callable fs = true) (Ht : is_None t = false) :
  evaluates (reduce_apply (map pending fs) t) w (Ok (stacked (rev fs) t), w) /\
  getattr (stacked (rev fs) t) a = Some v.
Proof.
  split; [now apply reduce_pending | now apply getattr_stacked].
Qed.

End Properties.

(** * The module on the clients of the docstrings *)

Import Doctest.

(** The docstrings' examples.  [optional], use case 1: [@foo] over
    [baba1]; calling [baba1] prints bar, baba1, baz. *)
Example optional_use_case_1 :
  py_evaluates
    (invoke py_optional [fn Foo] []
       (fun foo => invoke foo [fn Baba1] []
          (fun baba1 => invoke baba1 [] [] Return)))
    [] (Ok VNone, [VStr "bar"; VStr "baba1"; VStr "baz"]).
Proof. exists 6. reflexivity. Qed.

(** [optional], use case 3: [@foo(bar='bar: begin', baz='baz: end')]. *)
Example optional_use_case_3 :
  py_evaluates
    (invoke py_optional [fn Foo] []
       (fun foo =>
          invoke foo [] [("bar", VStr "bar: begin"); ("baz", VStr "baz: end")]
            (fun deco => invoke deco [fn Baba1] []
               (fun baba3 => invoke baba3 [] [] Return))))
    [] (Ok VNone, [VStr "bar: begin"; VStr "baba1"; VStr "baz: end"]).
Proof. exists 6. reflexivity. Qed.

(** [optional2], use case 1: [@foo] where [bar] has no default raises. *)
Example optional2_use_case_1 :
  py_evaluates
    (invoke py_optional2 [fn Foo1] []
       (fun foo => invoke foo [fn Baba1] [] Return))
    [] (Err (TypeError "foo() missing 1 required positional argument: 'bar'"),
        []).
Proof. exists 6. reflexivity. Qed.

(** [optional2], use case 2: [@foo('bar')]. *)
Example optional2_use_case_2 :
  py_evaluates
    (invoke py_optional2 [fn Foo1] []
       (fun foo => invoke foo [VStr "bar"] []
          (fun deco => invoke deco [fn Baba1] []
             (fun baba2 => invoke baba2 [] [] Return))))
    [] (Ok VNone, [VStr "bar"; VStr "baba1"; VStr "baz"]).
Proof. exists 6. reflexivity. Qed.

(** C1. [pipe] does not apply its decorators to the target: the wrapper it
    makes calls the target and hands the result to the decorators.
    [pipe(inc)(ten)()] calls [ten], applies [inc] to 10 and returns the
    wrapper that [inc] made around 10, where [inc(ten)()] returns 11. *)
Theorem pipe_decorates_what_the_target_returns :
  py_evaluates
    (invoke pipe_fn [inc] []
       (fun p => invoke p [fn Ten] [] (fun r => invoke r [] [] Return)))
    [] (Ok (py_wrapper (fn Inc) (VInt 10)), []) /\
  py_evaluates
    (invoke inc [fn Ten] [] (fun r => invoke r [] [] Return))
    [] (Ok (VInt 11), []).
Proof. split; exists 6; reflexivity. Qed.

(** C5. [pipe] is not associative.  With [a = b = c = inc] and the target
    [make_ten], [pipe(a, b, c)(t)()()] returns 13, [pipe(a, pipe(b, c))(t)()()]
    returns a partial object and [pipe(pipe(a, b), c)(t)()()] raises
    [TypeError]. *)
Theorem pipe_groupings_differ :
  py_evaluates pipe_flat [] (Ok (VInt 13), []) /\
  py_evaluates pipe_right []
    (Ok (py_wrapper (fn Inc) (py_wrapper (fn Inc) (VInt 11))), []) /\
  py_evaluates pipe_left []
    (Err (TypeError "unsupported operand type(s) for +"), []).
Proof. repeat split; exists 10; reflexivity. Qed.

(** C3, as stated, fails: [decorated(inc)(ten)] returns a wrapper and calls
    nothing, while [inc(decorated(inc), ten)] calls [decorated(inc)(ten)],
    adds 1 to the wrapper it gets and raises. *)
Lemma decorated_does_not_call_the_definition :
  ~ py_equiv
      (invoke decorated_fn [fn Inc] [] (fun p => invoke p [fn Ten] [] Return))
      (invoke decorated_fn [fn Inc] []
         (fun p => invoke (fn Inc) [p; fn Ten] [] Return)).
Proof.
  intros H.
  assert (H1 : py_evaluates
                 (invoke decorated_fn [fn Inc] []
                    (fun p => invoke p [fn Ten] [] Return))
                 [] (Ok (py_wrapper (fn Inc) (fn Ten)), []))
    by (exists 4; reflexivity).
  apply H in H1.
  assert (H2 : py_evaluates
                 (invoke decorated_fn [fn Inc] []
                    (fun p => invoke (fn Inc) [p; fn Ten] [] Return))
                 [] (Err (TypeError "unsupported operand type(s) for +"), []))
    by (exists 4; reflexivity).
  pose proof (evaluates_det _ _ _ _ _ _ _ H1 H2). discriminate.
Qed.

(** C4, as stated, fails: [pipe()(ten)] and [compose()(ten)] do not return
    [ten] but a partial object around it. *)
Lemma empty_composition_returns_a_new_object :
  ~ py_evaluates
      (invoke pipe_fn [] [] (fun p => invoke p [fn Ten] [] Return))
      [] (Ok (fn Ten), []) /\
  ~ py_evaluates
      (invoke compose_fn [] [] (fun p => invoke p [fn Ten] [] Return))
      [] (Ok (fn Ten), []).
Proof.
  split; intros H.
  - assert (H1 : py_evaluates
                   (invoke pipe_fn [] [] (fun p => invoke p [fn Ten] [] Return))
                   [] (Ok (py_wrapper (pipe_closure []) (fn Ten)), []))
      by (exists 4; reflexivity).
    pose proof (evaluates_det _ _ _ _ _ _ _ H H1). discriminate.
  - assert (H1 : py_evaluates
                   (invoke compose_fn [] []
                      (fun p => invoke p [fn Ten] [] Return))
                   [] (Ok (py_wrapper (pipe_closure []) (fn Ten)), []))
      by (exists 5; reflexivity).
    pose proof (evaluates_det _ _ _ _ _ _ _ H H1). discriminate.
Qed.

(** ** The theorems at work on the docstrings' clients *)

(** C3: the wrapper [decorated(inc)(ten)], called, returns 11. *)
Lemma decorated_binds_target_witness :
  callable (fn Inc) = true /\ is_None (fn Ten) = false /\
  dict_wf ([] : kwdict client) = true /\
  py_calls (py_wrapper (fn Inc) (fn Ten)) [] [] [] (Ok (VInt 11), []).
Proof.
  refine (conj eq_refl (conj eq_refl (conj eq_refl _))).
  refine (proj2 (proj2 (proj2 (proj2
            (decorated_binds_target type_attr fn_attr body (fn Inc) (fn Ten)
               [] [] [] (Ok (VInt 11), []) eq_refl eq_refl eq_refl)))) _).
  exists 3. reflexivity.
Defined.

(** C9: [pipe(inc)(baba1)] and [@foo] over [baba1] are named [baba1]. *)
Lemma wrapper_keeps_metadata_witness :
  In "__name__" WRAPPER_ASSIGNMENTS /\
  py_getattr (fn Baba1) "__name__" = Some (VStr "baba1") /\
  callable (fn Baba1) = true /\ callable wrapped_bar_baz = true /\
  dict_wf (instance_dict (fn Baba1)) = true /\
  py_calls (fn Foo) [] [] [] (Ok (py_pending wrapped_bar_baz), []) /\
  (exists r,
     py_evaluates
       (invoke pipe_fn [inc] [] (fun p => invoke p [fn Baba1] [] Return))
       [] (Ok r, []) /\
     py_getattr r "__name__" = Some (VStr "baba1")) /\
  (exists r,
     py_evaluates
       (invoke py_optional [fn Foo] [] (fun F => invoke F [fn Baba1] [] Return))
       [] (Ok r, []) /\
     py_getattr r "__name__" = Some (VStr "baba1")).
Proof.
  assert (Hfoo : py_calls (fn Foo) [] [] []
                          (Ok (py_pending wrapped_bar_baz), []))
    by (exists 2; reflexivity).
  pose proof (wrapper_keeps_metadata type_attr fn_attr body "__name__"
                (VStr "baba1") (fn Baba1) wrapped_bar_baz [inc] (fn Foo)
                wrapped_bar_baz [] []
                (or_intror (or_introl eq_refl)) eq_refl eq_refl eq_refl
                eq_refl Hfoo eq_refl) as H.
  refine (conj (or_intror (or_introl eq_refl))
            (conj eq_refl (conj eq_refl (conj eq_refl (conj eq_refl
               (conj Hfoo (conj _ _))))))).
  - exact (proj1 (proj2 (proj2 H))).
  - exact (proj1 (proj2 (proj2 (proj2 (proj2 (proj2 (proj2 H))))))).
Defined.

(** C4: [pipe()(baba1)], called, prints what [baba1] prints. *)
Lemma empty_composition_behaves_as_target_witness :
  callable (fn Baba1) = true /\ dict_wf ([] : kwdict client) = true /\
  py_calls (py_wrapper (pipe_closure []) (fn Baba1)) [] [] []
           (Ok VNone, [VStr "baba1"]).
Proof.
  refine (conj eq_refl (conj eq_refl _)).
  refine (proj2 (proj2 (proj2
            (empty_composition_behaves_as_target type_attr fn_attr body
               (fn Baba1) [] [] [] (Ok VNone, [VStr "baba1"])
               eq_refl eq_refl))) _).
  exists 1. reflexivity.
Defined.

(** C6: [@foo] and [@foo()] on [baba1]. *)
Lemma optional_bare_is_call_then_apply_witness :
  callable (fn Baba1) = true /\
  py_equiv
    (invoke py_optional [fn Foo] [] (fun F => invoke F [fn Baba1] [] Return))
    (invoke py_optional [fn Foo] []
       (fun F => invoke F [] [] (fun wr => invoke wr [fn Baba1] [] Return))).
Proof.
  refine (conj eq_refl _).
  exact (optional_bare_is_call_then_apply type_attr fn_attr body
           (fn Foo) (fn Baba1) eq_refl).
Defined.

(** C2: [foo('begin', baz='end')] configures; [foo(baba1, baz='end')]
    decorates [baba1]. *)
Lemma optional2_dispatch_witness :
  callable (fn Foo) = true /\
  dict_wf [("baz", VStr "end" : val)] = true /\
  py_calls (py_wrapper optional2_fn (fn Foo)) [VStr "begin"]
           [("baz", VStr "end")] []
           (Ok (py_pending (VFunction (Cuser Wrapped)
                              [VStr "begin"; VStr "end"])), []) /\
  py_calls (py_wrapper optional2_fn (fn Foo)) [fn Baba1]
           [("baz", VStr "end")] []
           (Ok (py_wrapper (VFunction (Cuser Wrapped)
                              [VStr "bar"; VStr "end"]) (fn Baba1)), []).
Proof.
  refine (conj eq_refl (conj eq_refl (conj _ _))).
  - refine (proj2 (proj2 (proj2 (proj2 (proj2
              (optional2_dispatch type_attr fn_attr body (fn Foo)
                 [("baz", VStr "end")] [] _ eq_refl eq_refl))))
              (VStr "begin") [] eq_refl eq_refl) _).
    exists 3. reflexivity.
  - refine (proj2 (proj1 (proj2 (proj2 (proj2
              (optional2_dispatch type_attr fn_attr body (fn Foo)
                 [("baz", VStr "end")] [] _ eq_refl eq_refl))))
              (fn Baba1) eq_refl) _).
    exists 4. reflexivity.
Defined.

(** C7: [foo(ten)], with [ten] meant as [bar], decorates [ten]. *)
Lemma optional2_invokable_is_target_witness :
  callable (fn Foo) = true /\ callable (fn Ten) = true /\
  dict_wf ([] : kwdict client) = true /\
  py_calls (py_wrapper optional2_fn (fn Foo)) [fn Ten] [] []
           (Ok (py_wrapper wrapped_bar_baz (fn Ten)), []).
Proof.
  refine (conj eq_refl (conj eq_refl (conj eq_refl _))).
  refine (proj2 (proj2
            (optional2_invokable_is_target type_attr fn_attr body (fn Foo)
               (fn Ten) [] [] [] _ eq_refl eq_refl eq_refl)) _).
  exists 4. reflexivity.
Defined.

(** C8: [foo()] where [bar] has no default. *)
Lemma optional2_surfaces_missing_argument_witness :
  callable (fn Foo1) = true /\
  py_calls (fn Foo1) [] [] []
    (Err (TypeError "foo() missing 1 required positional argument: 'bar'"), []) /\
  py_calls (py_wrapper optional2_fn (fn Foo1)) [] [] []
    (Err (TypeError "foo() missing 1 required positional argument: 'bar'"), []).
Proof.
  assert (H : py_calls (fn Foo1) [] [] []
    (Err (TypeError "foo() missing 1 required positional argument: 'bar'"), []))
    by (exists 1; reflexivity).
  refine (conj eq_refl (conj H _)).
  exact (proj2 (optional2_surfaces_missing_argument type_attr fn_attr body
                  (fn Foo1) _ [] [] eq_refl H)).
Defined.

(** ** The further properties on the docstrings' clients *)

(** X1: [pipe(5)(ten)] is built although 5 is no decorator. *)
Lemma pipe_calls_nothing_witness :
  is_None (fn Ten) = false /\
  py_evaluates
    (invoke pipe_fn [VInt 5] [] (fun p => invoke p [fn Ten] [] Return))
    [] (Ok (py_wrapper (pipe_closure [VInt 5]) (fn Ten)), []).
Proof.
  refine (conj eq_refl _).
  exact (proj1 (pipe_calls_nothing type_attr fn_attr body
                  [VInt 5] (fn Ten) [] eq_refl)).
Defined.

(** X2: [pipe(inc)(ten)()] applies [inc] to 10. *)
Lemma pipe_calls_target_first_witness :
  dict_wf ([] : kwdict client) = true /\
  py_calls (fn Ten) [] [] [] (Ok (VInt 10), []) /\
  py_calls (py_wrapper (pipe_closure [inc]) (fn Ten)) [] [] []
           (Ok (py_wrapper (fn Inc) (VInt 10)), []).
Proof.
  assert (Hten : py_calls (fn Ten) [] [] [] (Ok (VInt 10), []))
    by (exists 1; reflexivity).
  refine (conj eq_refl (conj Hten _)).
  refine (proj2 (proj2 (pipe_calls_target_first type_attr fn_attr body
                          [inc] (fn Ten) [] [] [] (VInt 10)
                          (TypeError "") [] _ eq_refl) Hten) _).
  exists 3. reflexivity.
Defined.


(** X4: [pipe(inc, inc)(make_ten)()] is [inc] applied to what
    [pipe(inc)(make_ten)()] returns. *)
Lemma pipe_extends_left_to_right_witness :
  dict_wf ([] : kwdict client) = true /\
  py_calls (py_wrapper (pipe_closure [inc]) (fn MakeTen)) [] [] []
           (Ok (py_wrapper (fn Inc) (fn Ten)), []) /\
  py_calls (py_wrapper (pipe_closure ([inc] ++ [inc])) (fn MakeTen)) [] [] []
           (Ok (py_wrapper (fn Inc) (py_wrapper (fn Inc) (fn Ten))), []).
Proof.
  assert (H1 : py_calls (py_wrapper (pipe_closure [inc]) (fn MakeTen)) [] [] []
                        (Ok (py_wrapper (fn Inc) (fn Ten)), []))
    by (exists 5; reflexivity).
  refine (conj eq_refl (conj H1 _)).
  refine (proj2 (proj2 (pipe_extends_left_to_right type_attr fn_attr body
                          [inc] [inc] (fn MakeTen) [] [] []
                          (py_wrapper (fn Inc) (fn Ten)) (TypeError "") [] _
                          eq_refl) H1) _).
  exists 3. reflexivity.
Defined.

(** X6: [decorated(5)] is built; [decorated(5)(ten)] raises. *)
Lemma decorated_checks_definition_late_witness :
  callable (VInt 5 : val) = false /\ is_None (fn Ten) = false /\
  py_calls (py_pending (VInt 5)) [fn Ten] [] []
           (Err (TypeError "the first argument must be callable"), []).
Proof.
  refine (conj eq_refl (conj eq_refl _)).
  exact (proj1 (proj2 (decorated_checks_definition_late type_attr fn_attr body
                         (VInt 5) (fn Ten) [] eq_refl eq_refl))).
Defined.

(** X8: [decorated(inc)(ten).__wrapped__] is [ten]. *)
Lemma decorated_records_wrapped_witness :
  py_decorated (fn Inc) (fn Ten) = Ok (py_wrapper (fn Inc) (fn Ten)) /\
  py_getattr (py_wrapper (fn Inc) (fn Ten)) "__wrapped__" = Some (fn Ten).
Proof.
  refine (conj eq_refl _).
  exact (decorated_records_wrapped type_attr fn_attr (fn Inc) (fn Ten)
           (py_wrapper (fn Inc) (fn Ten)) eq_refl).
Defined.

(** X10: [@foo] over 5 applies the wrapper to 5. *)
Lemma optional_dispatch_witness :
  is_None (fn Foo) = false /\ dict_wf ([] : kwdict client) = true /\
  is_undefined (VInt 5 : val) = false /\
  py_calls (py_wrapper optional_fn (fn Foo)) [VInt 5] [] []
           (Ok (py_wrapper wrapped_bar_baz (VInt 5)), []).
Proof.
  refine (conj eq_refl (conj eq_refl (conj eq_refl _))).
  refine (proj2 (proj2 (proj2 (proj2
            (optional_dispatch type_attr fn_attr body (fn Foo) (VInt 5)
               [] [] _ eq_refl eq_refl eq_refl)))) _).
  exists 3. reflexivity.
Defined.

(** X11: [foo(baba1, 'bar')] under [optional] raises. *)
Lemma optional_rejects_positional_configuration_witness :
  dict_wf ([] : kwdict client) = true /\
  exists msg,
    py_calls (py_wrapper optional_fn (fn Foo)) [fn Baba1; VStr "bar"] [] []
             (Err (TypeError msg), []).
Proof.
  refine (conj eq_refl _).
  exact (optional_rejects_positional_configuration type_attr fn_attr body
           (fn Foo) (fn Baba1) (VStr "bar") [] [] [] eq_refl).
Defined.

(** X12: [optional(optional(foo))(baba1)] decorates [baba1]. *)
Lemma optional_is_idempotent_witness :
  dict_wf ([] : kwdict client) = true /\
  py_calls (py_wrapper optional_fn (py_wrapper optional_fn (fn Foo)))
           [fn Baba1] [] []
           (Ok (py_wrapper wrapped_bar_baz (fn Baba1)), []).
Proof.
  refine (conj eq_refl _).
  refine (proj2 (optional_is_idempotent type_attr fn_attr body (fn Foo)
                   [fn Baba1] [] [] _ eq_refl) _).
  exists 4. reflexivity.
Defined.

(** X13: [@foo] and [@foo()] over [baba1], for [foo] under [optional2]. *)
Lemma optional2_bare_is_call_then_apply_witness :
  callable (fn Baba1) = true /\
  py_equiv
    (invoke py_optional2 [fn Foo] [] (fun G => invoke G [fn Baba1] [] Return))
    (invoke py_optional2 [fn Foo] []
       (fun G => invoke G [] [] (fun wr => invoke wr [fn Baba1] [] Return))).
Proof.
  refine (conj eq_refl _).
  exact (optional2_bare_is_call_then_apply type_attr fn_attr body
           (fn Foo) (fn Baba1) eq_refl).
Defined.

(** X14: [foo(baba1)] under [optional2] as under [optional]. *)
Lemma optional2_extends_optional_witness :
  dict_wf ([] : kwdict client) = true /\ callable (fn Baba1) = true /\
  py_calls (py_wrapper optional2_fn (fn Foo)) [fn Baba1] [] []
           (Ok (py_wrapper wrapped_bar_baz (fn Baba1)), []).
Proof.
  refine (conj eq_refl (conj eq_refl _)).
  refine (proj2 (proj2 (optional2_extends_optional type_attr fn_attr body
                          (fn Foo) (fn Baba1) [] [] _ eq_refl eq_refl)) _).
  exists 4. reflexivity.
Defined.

(** X15: [baba1] under [wrapped] and then under [inc] is named [baba1]. *)
Lemma stacked_wrappers_keep_metadata_witness :
  In "__name__" WRAPPER_ASSIGNMENTS /\
  py_getattr (fn Baba1) "__name__" = Some (VStr "baba1") /\
  dict_wf (instance_dict (fn Baba1)) = true /\
  forallb callable [wrapped_bar_baz; fn Inc] = true /\
  is_None (fn Baba1) = false /\
  py_getattr (py_stacked (rev [wrapped_bar_baz; fn Inc]) (fn Baba1)) "__name__"
  = Some (VStr "baba1").
Proof.
  refine (conj (or_intror (or_introl eq_refl))
            (conj eq_refl (conj eq_refl (conj eq_refl (conj eq_refl _))))).
  exact (proj2 (stacked_wrappers_keep_metadata type_attr fn_attr body
                  "__name__" (VStr "baba1") (fn Baba1)
                  [wrapped_bar_baz; fn Inc] []
                  (or_intror (or_introl eq_refl)) eq_refl eq_refl eq_refl
                  eq_refl)).
Defined.
